(** * A model of the CloudMonitor [API] resource client and its [ApiException]

    The two JavaScript classes are embedded as state-passing functions over a
    [world]: the JavaScript heap (objects are shared by reference), the one
    [API] instance under study, the browser's timer queue and clock, the
    HTTP calls handed to [window.axios], the console, the [window.emitter]
    bus, and a trace of the callbacks that were invoked.

    [exclude], [only] and [save] come after the other methods, in [Rest]:
    the first two stringify arbitrary values with [join], so what the page
    makes of a value that is no primitive is left open there; they reach
    the instance only through [params], [post] and [update]. *)

From stdpp Require Import gmap strings list fin_maps pretty sorting.
From Stdlib Require Import ZArith.

Local Open Scope Z_scope.

(** ** JavaScript values *)

Definition loc := positive.
Definition fn := positive.

(** Numbers are the integer-valued ones ([@param {int} id], page numbers,
    timer handles); [VFun f] is the function object of identity [f];
    [VTypeError] is a native [TypeError] instance. *)
Inductive value :=
| VUndefined
| VNull
| VBool (b : bool)
| VNum (n : Z)
| VStr (s : string)
| VRef (l : loc)
| VFun (f : fn)
| VTypeError.

#[global] Instance value_eq_dec : EqDecision value.
Proof. solve_decision. Defined.

(** [if (v)] *)
Definition truthy (v : value) : bool :=
  match v with
  | VUndefined | VNull => false
  | VBool b => b
  | VNum n => negb (n =? 0)
  | VStr s => negb (String.eqb s EmptyString)
  | VRef _ | VFun _ | VTypeError => true
  end.

(** [a === b] and [a !== b]: primitives by value, objects by reference. *)
Definition strict_eq (a b : value) : bool := bool_decide (a = b).
Definition strict_ne (a b : value) : bool := negb (strict_eq a b).

Definition nullish (v : value) : bool :=
  match v with
  | VUndefined | VNull => true
  | _ => false
  end.

(** ** The heap *)

(** An [ApiException] instance: the two properties its constructor writes. *)
Record ApiException := mkApiException {
  message : value;
  name : value
}.

Inductive object :=
| Obj (props : gmap string value)
| Arr (elems : list value)
| Exc (e : ApiException).

(** ** The [API] instance *)

Record endpoints := mkEndpoints {
  index : string;
  destroy : string;
  show_ : string;
  store : string;
  update_ : string
}.

Record API := mkAPI {
  _route : string;
  _params : value;
  _meta : value;
  _raw : value;
  _data : value;
  _loading : bool;
  _saving : bool;
  _debounce : Z;
  _debouncing : option positive;
  _endpoints : endpoints;
  _callback : value
}.

(** ** Timers, requests and the world *)

(** The closure passed to [setTimeout] by [get] ([TIndex]) and by [show]
    ([TShow]); it captures the caller's [callback]. *)
Inductive task :=
| TIndex (callback : value)
| TShow (callback : value).

Record timer := mkTimer {
  handle : positive;
  delay : Z;
  due : Z;
  job : task
}.

Inductive verb := GET | POST | PUT | DELETE.

(** The [.then]/[.catch] chain attached to the promise of a request. *)
Inductive chain :=
| KIndex (callback : value)
| KShow (callback : value)
| KStore (callback : value)
| KUpdate (callback : value)
| KDestroy (id callback : value).

(** One call of [window.axios]: the route name and the parameter bag given
    to [window.route] (the value, and its own properties at that moment),
    the request body, and the chain awaiting the response. *)
Record request := mkRequest {
  req_verb : verb;
  req_route : string;
  req_params : value;
  req_resolved : gmap string value;
  req_body : value;
  req_chain : chain
}.

(** A callback invocation: the function, its argument, and the instance as
    the callback finds it. *)
Record invocation := mkInvocation {
  inv_fn : fn;
  inv_arg : value;
  inv_this : API
}.

Record world := mkWorld {
  heap : gmap loc object;
  this : API;
  now : Z;
  timers : list timer;
  next_handle : positive;
  sent : list request;
  settled : list nat;
  console : list value;
  emitted : list (string * value);
  invoked : list invocation;
  unhandled : list value
}.

(** ** Computations: state, with exceptions that keep the state *)

Inductive result (A : Type) :=
| Ok (a : A)
| Throw (e : value).
Arguments Ok {A} a.
Arguments Throw {A} e.

Definition M (A : Type) : Type := world → world * result A.

Definition ret {A} (a : A) : M A := λ w, (w, Ok a).
Definition throw {A} (e : value) : M A := λ w, (w, Throw e).
Definition bind {A B} (m : M A) (k : A → M B) : M B :=
  λ w, match m w with
       | (w', Ok a) => k a w'
       | (w', Throw e) => (w', Throw e)
       end.
(** [p.catch(h)] *)
Definition catch {A} (m : M A) (h : value → M A) : M A :=
  λ w, match m w with
       | (w', Ok a) => (w', Ok a)
       | (w', Throw e) => h e w'
       end.

Declare Scope js_scope.
Delimit Scope js_scope with js.
Notation "'let!' x := m 'in' k" := (bind m (λ x, k))
  (at level 10, x name, m at level 100, k at level 200) : js_scope.
Notation "m ;; k" := (bind m (λ _, k))
  (at level 100, k at level 200, right associativity) : js_scope.
Local Open Scope js_scope.

Definition modify (f : world → world) : M unit := λ w, (f w, Ok ()).
Definition gets {A} (f : world → A) : M A := λ w, (w, Ok (f w)).

(** *** Field updates *)

Definition with_heap (h : gmap loc object) (w : world) : world :=
  mkWorld h (this w) (now w) (timers w) (next_handle w) (sent w) (settled w)
          (console w) (emitted w) (invoked w) (unhandled w).
Definition with_this (a : API) (w : world) : world :=
  mkWorld (heap w) a (now w) (timers w) (next_handle w) (sent w) (settled w)
          (console w) (emitted w) (invoked w) (unhandled w).
Definition with_now (t : Z) (w : world) : world :=
  mkWorld (heap w) (this w) t (timers w) (next_handle w) (sent w) (settled w)
          (console w) (emitted w) (invoked w) (unhandled w).
Definition with_timers (ts : list timer) (w : world) : world :=
  mkWorld (heap w) (this w) (now w) ts (next_handle w) (sent w) (settled w)
          (console w) (emitted w) (invoked w) (unhandled w).
Definition with_next_handle (n : positive) (w : world) : world :=
  mkWorld (heap w) (this w) (now w) (timers w) n (sent w) (settled w)
          (console w) (emitted w) (invoked w) (unhandled w).
Definition with_sent (rs : list request) (w : world) : world :=
  mkWorld (heap w) (this w) (now w) (timers w) (next_handle w) rs (settled w)
          (console w) (emitted w) (invoked w) (unhandled w).
Definition with_settled (s : list nat) (w : world) : world :=
  mkWorld (heap w) (this w) (now w) (timers w) (next_handle w) (sent w) s
          (console w) (emitted w) (invoked w) (unhandled w).
Definition with_console (c : list value) (w : world) : world :=
  mkWorld (heap w) (this w) (now w) (timers w) (next_handle w) (sent w) (settled w)
          c (emitted w) (invoked w) (unhandled w).
Definition with_emitted (e : list (string * value)) (w : world) : world :=
  mkWorld (heap w) (this w) (now w) (timers w) (next_handle w) (sent w) (settled w)
          (console w) e (invoked w) (unhandled w).
Definition with_invoked (i : list invocation) (w : world) : world :=
  mkWorld (heap w) (this w) (now w) (timers w) (next_handle w) (sent w) (settled w)
          (console w) (emitted w) i (unhandled w).
Definition with_unhandled (u : list value) (w : world) : world :=
  mkWorld (heap w) (this w) (now w) (timers w) (next_handle w) (sent w) (settled w)
          (console w) (emitted w) (invoked w) u.

Definition set_params (v : value) (a : API) : API :=
  mkAPI (_route a) v (_meta a) (_raw a) (_data a) (_loading a) (_saving a)
        (_debounce a) (_debouncing a) (_endpoints a) (_callback a).
Definition set_meta (v : value) (a : API) : API :=
  mkAPI (_route a) (_params a) v (_raw a) (_data a) (_loading a) (_saving a)
        (_debounce a) (_debouncing a) (_endpoints a) (_callback a).
Definition set_raw (v : value) (a : API) : API :=
  mkAPI (_route a) (_params a) (_meta a) v (_data a) (_loading a) (_saving a)
        (_debounce a) (_debouncing a) (_endpoints a) (_callback a).
Definition set_data (v : value) (a : API) : API :=
  mkAPI (_route a) (_params a) (_meta a) (_raw a) v (_loading a) (_saving a)
        (_debounce a) (_debouncing a) (_endpoints a) (_callback a).
Definition set_loading (b : bool) (a : API) : API :=
  mkAPI (_route a) (_params a) (_meta a) (_raw a) (_data a) b (_saving a)
        (_debounce a) (_debouncing a) (_endpoints a) (_callback a).
Definition set_saving (b : bool) (a : API) : API :=
  mkAPI (_route a) (_params a) (_meta a) (_raw a) (_data a) (_loading a) b
        (_debounce a) (_debouncing a) (_endpoints a) (_callback a).
Definition set_debouncing (h : option positive) (a : API) : API :=
  mkAPI (_route a) (_params a) (_meta a) (_raw a) (_data a) (_loading a) (_saving a)
        (_debounce a) h (_endpoints a) (_callback a).
Definition set_callback (v : value) (a : API) : API :=
  mkAPI (_route a) (_params a) (_meta a) (_raw a) (_data a) (_loading a) (_saving a)
        (_debounce a) (_debouncing a) (_endpoints a) v.

(** [this.f = v] *)
Definition assign_this (f : API → API) : M unit := modify (λ w, with_this (f (this w)) w).

(** ** Primitives of the language and of the browser *)

Definition alloc (o : object) : M loc :=
  λ w, let l := fresh (dom (heap w)) in (with_heap (<[l := o]> (heap w)) w, Ok l).

(** The own enumerable properties of a value, as [Object.assign] reads them
    from a source: those of a plain object, the indexed elements of an array
    or of a string, the two fields of an exception, none for the rest. *)
Definition indexed (vs : list value) : gmap string value :=
  list_to_map (imap (λ i v, (pretty i, v)) vs).

Definition chars (s : string) : list value :=
  (λ c, VStr (String c EmptyString)) <$> String.list_ascii_of_string s.

Definition own_props (h : gmap loc object) (v : value) : gmap string value :=
  match v with
  | VRef l =>
      match h !! l with
      | Some (Obj m) => m
      | Some (Arr vs) => indexed vs
      | Some (Exc e) => {[ "message" := message e; "name" := name e ]}
      | None => ∅
      end
  | VStr s => indexed (chars s)
  | _ => ∅
  end.

(** [v.k] for a [v] that is neither [undefined] nor [null]. A native
    [TypeError] answers for its [name] only. *)
Definition read_prop (h : gmap loc object) (k : string) (v : value) : value :=
  match v with
  | VRef l =>
      match h !! l with
      | Some (Arr vs) =>
          if String.eqb k "length" then VNum (Z.of_nat (length vs))
          else default VUndefined (indexed vs !! k)
      | _ => default VUndefined (own_props h v !! k)
      end
  | VStr s =>
      if String.eqb k "length" then VNum (Z.of_nat (String.length s))
      else default VUndefined (indexed (chars s) !! k)
  | VTypeError => if String.eqb k "name" then VStr "TypeError" else VUndefined
  | _ => VUndefined
  end.

(** [v.k]: a [TypeError] on [undefined] and [null]. *)
Definition get_prop (k : string) (v : value) : M value :=
  if nullish v then throw VTypeError
  else gets (λ w, read_prop (heap w) k v).

(** The heap after [Object.assign(target, props)] for an already enumerated
    source. Only a plain object is given new properties; the parameter bag
    is one ([@param {object} params]). Primitives are wrapped in a temporary
    object and so keep nothing. What an array, a function or an exception
    instance would receive is not recorded: the properties below that go
    through a merge take the target to be a plain object. *)
Definition heap_assign (h : gmap loc object) (target : value) (m : gmap string value)
  : gmap loc object :=
  match target with
  | VRef l =>
      match h !! l with
      | Some (Obj old) => <[l := Obj (m ∪ old)]> h
      | _ => h
      end
  | _ => h
  end.

(** [Object.assign] throws on an [undefined] or [null] target. It also
    throws on a string target when the source has one of the string's own
    keys; that case is kept out by the properties below, which take the
    target to be a plain object (or, for the [null] case, no object). *)
Definition assign_props (target : value) (m : gmap string value) : M unit :=
  if nullish target then throw VTypeError
  else modify (λ w, with_heap (heap_assign (heap w) target m) w).

(** [Object.assign(target, source)]: the source is enumerated when its turn
    comes, so a source that is the target itself sees the earlier merges. *)
Definition Object_assign (target source : value) : M unit :=
  let! m := gets (λ w, own_props (heap w) source) in
  assign_props target m.

(** The queue once [clearTimeout(h)] has run: [null] names no timer. *)
Definition cancel (h : option positive) (ts : list timer) : list timer :=
  match h with
  | Some i => filter (λ t, handle t ≠ i) ts
  | None => ts
  end.

Definition clearTimeout (h : option positive) : M unit :=
  modify (λ w, with_timers (cancel h (timers w)) w).

Definition setTimeout (j : task) (d : Z) : M positive :=
  λ w, let i := next_handle w in
       (with_next_handle (Pos.succ i)
          (with_timers (timers w ++ [mkTimer i d (now w + Z.max 0 d) j]) w), Ok i).

Definition console_log (v : value) : M unit :=
  modify (λ w, with_console (console w ++ [v]) w).

(** [window.emitter.emit(event, v)] *)
Definition emit (event : string) (v : value) : M unit :=
  modify (λ w, with_emitted (emitted w ++ [(event, v)]) w).

(** [f(arg)]: a callback is opaque; its invocation is recorded together with
    the instance it can observe, and it returns normally without touching
    the instance. Calling anything but a function is a [TypeError]. *)
Definition call (f arg : value) : M unit :=
  match f with
  | VFun g => modify (λ w, with_invoked (invoked w ++ [mkInvocation g arg (this w)]) w)
  | _ => throw VTypeError
  end.

(** [window.axios.<verb>(window.route(this._route + endpoint, this._params), body)]
    followed by the chain [k]. *)
Definition axios (v : verb) (endpoint : endpoints → string) (body : value) (k : chain) : M unit :=
  modify (λ w,
    let a := this w in
    with_sent (sent w ++ [mkRequest v (_route a +:+ endpoint (_endpoints a))
                                    (_params a) (own_props (heap w) (_params a)) body k]) w).

(** [xs.filter(p)] on the elements of an array. *)
Fixpoint filterM (p : value → M bool) (xs : list value) : M (list value) :=
  match xs with
  | [] => ret []
  | x :: xs' =>
      let! keep := p x in
      let! rest := filterM p xs' in
      ret (if keep then x :: rest else rest)
  end.

(** [v.filter(p)]: a fresh array; a [TypeError] when [v] is not an array. *)
Definition array_filter (p : value → M bool) (v : value) : M value :=
  let! o := gets (λ w, match v with VRef l => heap w !! l | _ => None end) in
  match o with
  | Some (Arr xs) =>
      let! kept := filterM p xs in
      let! l := alloc (Arr kept) in
      ret (VRef l)
  | _ => throw VTypeError
  end.

(** A default value [x = {}] of a parameter. *)
Definition default_object (v : value) : M value :=
  match v with
  | VUndefined => let! l := alloc (Obj ∅) in ret (VRef l)
  | _ => ret v
  end.

(** ** [class ApiException] *)

Module APIException.

(** [new ApiException(error)]: the body logs, reads
    [error.response.data.message], names the instance and emits. The
    instance is private to the body until it is handed back, so it enters
    the heap complete. *)
Definition constructor (error : value) : M value :=
  console_log error ;;
  let! response := get_prop "response" error in
  let! data := get_prop "data" response in
  let! msg := get_prop "message" data in
  emit "error-message" error ;;
  let! self := alloc (Exc (mkApiException msg (VStr "APIException"))) in
  ret (VRef self).

Definition toString (e : ApiException) : value := message e.

(** [x.toString()] for a reference [x] to an instance. *)
Definition toString_of (h : gmap loc object) (x : value) : option value :=
  match x with
  | VRef l => match h !! l with Some (Exc e) => Some (toString e) | _ => None end
  | _ => None
  end.

End APIException.

(** ** [class API] *)

(** [this._debouncing ? this._debounce : 0]: the handles of a browser are
    positive integers, hence truthy. *)
Definition debounce_delay (a : API) : Z :=
  match _debouncing a with
  | Some _ => _debounce a
  | None => 0
  end.

(** What a method hands back: the instance itself ([return this]), or a
    value. *)
Inductive returned :=
| Self
| Value (v : value).

Module API.

Definition field {A} (f : API → A) : M A := gets (λ w, f (this w)).

(** [data(data = null)] *)
Definition data (data : value) : M returned :=
  if truthy data then
    assign_this (set_data data) ;;
    ret Self
  else
    let! d := field _data in
    ret (Value d).

(** [meta(meta = null)] *)
Definition meta (meta : value) : M returned :=
  if truthy meta then
    assign_this (set_meta meta) ;;
    ret Self
  else
    let! m := field _meta in
    ret (Value m).

(** [params(params)] *)
Definition params (params : value) : M returned :=
  assign_this (set_params params) ;;
  ret Self.

(** [if (callback) { callback(r) }] *)
Definition notify (callback r : value) : M unit :=
  if truthy callback then call callback r else ret ().

(** The [r => {...}] of [get]. *)
Definition index_then (callback r : value) : M unit :=
  (let! body := get_prop "data" r in
   let! d := get_prop "data" body in
   assign_this (set_data d)) ;;
  (let! body := get_prop "data" r in
   let! m := get_prop "meta" body in
   assign_this (set_meta m)) ;;
  assign_this (set_loading false) ;;
  notify callback r.

(** The [r => {...}] of [show]. *)
Definition show_then (callback r : value) : M unit :=
  (let! body := get_prop "data" r in
   let! d := get_prop "data" body in
   assign_this (set_data d)) ;;
  (let! body := get_prop "data" r in
   let! m := get_prop "meta" body in
   assign_this (set_meta m)) ;;
  (let! body := get_prop "data" r in
   assign_this (set_raw body)) ;;
  assign_this (set_loading false) ;;
  notify callback r.

(** The [r => {...}] of [post] and of [update]. *)
Definition store_then (callback r : value) : M unit :=
  assign_this (set_saving false) ;;
  (let! registered := field _callback in
   notify registered r) ;;
  notify callback r.

Definition update_then (callback r : value) : M unit :=
  assign_this (set_saving false) ;;
  (let! registered := field _callback in
   notify registered r) ;;
  notify callback r.

(** The [e => { throw new APIException(e) }] of [post]. *)
Definition store_catch (e : value) : M unit :=
  let! x := APIException.constructor e in
  throw x.

(** The [r => {...}] of [delete]: [this.data()] is not an instance with a
    [filter] when it hands back [this]. *)
Definition destroy_then (id callback r : value) : M unit :=
  (let! current := data VNull in
   let! kept :=
     match current with
     | Value v =>
         array_filter (λ d, let! x := get_prop "id" d in ret (strict_ne x id)) v
     | Self => throw VTypeError
     end in
   data kept) ;;
  notify callback r.

(** The arrow function given to [setTimeout]. *)
Definition run (j : task) : M unit :=
  match j with
  | TIndex callback => axios GET index VUndefined (KIndex callback)
  | TShow callback => axios GET show_ VUndefined (KShow callback)
  end.

(** [this._debouncing = setTimeout(job, this._debouncing ? this._debounce : 0)] *)
Definition debounce (j : task) : M unit :=
  let! d := field debounce_delay in
  let! h := setTimeout j d in
  assign_this (set_debouncing (Some h)).

(** [get(params = {}, callback = null)]. The default [{}] is a source with
    no property, as is [undefined]. *)
Definition get (params_ callback : value) : M returned :=
  let! _params_ := field _params in
  (let! h := field _debouncing in clearTimeout h) ;;
  assign_this (set_loading true) ;;
  (let! target := field _params in Object_assign target params_) ;;
  debounce (TIndex callback) ;;
  params _params_ ;;
  ret Self.

(** [show(params = {}, callback = null)] *)
Definition show (params_ callback : value) : M returned :=
  let! _params_ := field _params in
  (let! h := field _debouncing in clearTimeout h) ;;
  assign_this (set_loading true) ;;
  (let! target := field _params in Object_assign target params_) ;;
  debounce (TShow callback) ;;
  params _params_ ;;
  ret Self.

(** [post(params = {}, data = {}, callback = null)] *)
Definition post (params_ data_ callback : value) : M returned :=
  let! data_ := default_object data_ in
  let! _params_ := field _params in
  assign_this (set_saving true) ;;
  (let! target := field _params in Object_assign target params_) ;;
  axios POST store data_ (KStore callback) ;;
  params _params_ ;;
  ret Self.

(** [update(params = {}, data = {}, callback = null)] *)
Definition update (params_ data_ callback : value) : M returned :=
  let! data_ := default_object data_ in
  let! _params_ := field _params in
  assign_this (set_saving true) ;;
  (let! target := field _params in Object_assign target params_) ;;
  axios PUT update_ data_ (KUpdate callback) ;;
  params _params_ ;;
  ret Self.

(** [delete(id, callback, params = {})]:
    [Object.assign(this._params, params, {id: id})]. *)
Definition delete (id callback params_ : value) : M returned :=
  let! _params_ := field _params in
  (let! target := field _params in
   Object_assign target params_ ;;
   assign_props target {[ "id" := id ]}) ;;
  axios DELETE destroy VUndefined (KDestroy id callback) ;;
  params _params_ ;;
  ret Self.

Definition loading : M returned :=
  let! b := field _loading in ret (Value (VBool b)).

Definition saving : M returned :=
  let! b := field _saving in ret (Value (VBool b)).

(** [goTo(pageNumber)]: [this.get({page: pageNumber})], no [return]. *)
Definition goTo (pageNumber : value) : M returned :=
  let! p := alloc (Obj {[ "page" := pageNumber ]}) in
  get (VRef p) VUndefined ;;
  ret (Value VUndefined).

(** [query(keyword = '', params = {})]:
    [this.get(Object.assign({query: keyword}, params))], no [return]. *)
Definition query (keyword params_ : value) : M returned :=
  let keyword := match keyword with VUndefined => VStr EmptyString | v => v end in
  let! q := alloc (Obj {[ "query" := keyword ]}) in
  Object_assign (VRef q) params_ ;;
  get (VRef q) VUndefined ;;
  ret (Value VUndefined).

(** [onSuccess(callback)] *)
Definition onSuccess (callback : value) : M returned :=
  assign_this (set_callback callback) ;;
  ret Self.

(** [constructor(route, init = null, params = {}, meta = {}, autoload = true)] *)
Definition constructor (route : string) (init params_ meta_ autoload : value) : M unit :=
  let! params_ := default_object params_ in
  let! meta_ := default_object meta_ in
  let autoload := match autoload with VUndefined => VBool true | v => v end in
  let! empty := alloc (Arr []) in
  modify (with_this
    (mkAPI route params_ meta_ VNull (VRef empty) false false 1000 None
           (mkEndpoints ".index" ".destroy" ".show" ".store" ".update") VNull)) ;;
  (if truthy init then
     (let! d := get_prop "data" init in data d) ;;
     (let! m := get_prop "meta" init in meta m) ;;
     ret ()
   else ret ()) ;;
  (if truthy autoload && negb (String.eqb route EmptyString) then
     get VUndefined VUndefined ;; ret ()
   else ret ()).

End API.

(** ** The event loop *)

(** How the promise of a request settles. *)
Inductive outcome :=
| Fulfilled (r : value)
| Rejected (e : value).

(** [p.then(f)] *)
Definition then_ (o : outcome) (f : value → M unit) : M unit :=
  match o with
  | Fulfilled r => f r
  | Rejected e => throw e
  end.

(** Only [post] attaches a [.catch]. *)
Definition settle_chain (k : chain) (o : outcome) : M unit :=
  match k with
  | KIndex callback => then_ o (API.index_then callback)
  | KShow callback => then_ o (API.show_then callback)
  | KStore callback => catch (then_ o (API.store_then callback)) API.store_catch
  | KUpdate callback => then_ o (API.update_then callback)
  | KDestroy id callback => then_ o (API.destroy_then id callback)
  end.

(** A job of the event loop: what it throws, nobody catches. *)
Definition job_run (m : M unit) (w : world) : world :=
  match m w with
  | (w', Ok _) => w'
  | (w', Throw e) => with_unhandled (unhandled w' ++ [e]) w'
  end.

(** The response of the [i]-th request arrives; a promise settles once. *)
Definition settle (i : nat) (o : outcome) (w : world) : world :=
  match sent w !! i with
  | Some rq =>
      if bool_decide (i ∈ settled w) then w
      else job_run (settle_chain (req_chain rq) o) (with_settled (i :: settled w) w)
  | None => w
  end.

(** A pending timer fires: it leaves the queue and its job runs. *)
Definition fire (t : timer) (w : world) : world :=
  if bool_decide (handle t ∈ handle <$> timers w) then
    job_run (API.run (job t))
            (with_timers (cancel (Some (handle t)) (timers w)) w)
  else w.

Definition earlier (a b : timer) : Prop := due a ≤ due b.

#[global] Instance earlier_dec a b : Decision (earlier a b).
Proof. unfold earlier. apply _. Defined.

(** The timers that are due, the earliest first, and in the order they were
    set among equals. *)
Definition due_timers (w : world) : list timer :=
  merge_sort earlier (filter (λ t, due t ≤ now w) (timers w)).

(** [dt] milliseconds pass, and the timers that are due fire. *)
Definition tick (dt : Z) (w : world) : world :=
  let w' := with_now (now w + Z.max 0 dt) w in
  foldl (λ u t, fire t u) w' (due_timers w').

(** A method call of the application on the instance. *)
Inductive method :=
| m_data (v : value)
| m_meta (v : value)
| m_params (v : value)
| m_get (params callback : value)
| m_show (params callback : value)
| m_post (params data callback : value)
| m_update (params data callback : value)
| m_delete (id callback params : value)
| m_loading
| m_saving
| m_query (keyword params : value)
| m_goTo (pageNumber : value)
| m_onSuccess (callback : value).

Definition invoke (c : method) : M returned :=
  match c with
  | m_data v => API.data v
  | m_meta v => API.meta v
  | m_params v => API.params v
  | m_get p cb => API.get p cb
  | m_show p cb => API.show p cb
  | m_post p d cb => API.post p d cb
  | m_update p d cb => API.update p d cb
  | m_delete i cb p => API.delete i cb p
  | m_loading => API.loading
  | m_saving => API.saving
  | m_query k p => API.query k p
  | m_goTo n => API.goTo n
  | m_onSuccess cb => API.onSuccess cb
  end.

(** What happens to the page, one thing at a time: the application calls a
    method, or evaluates an object or array literal; time passes; a response
    arrives. *)
Inductive action :=
| Call (c : method)
| New (o : object)
| Tick (dt : Z)
| Settle (i : nat) (o : outcome).

Definition step (a : action) (w : world) : world :=
  match a with
  | Call c => fst (invoke c w)
  | New o => fst (alloc o w)
  | Tick dt => tick dt w
  | Settle i o => settle i o w
  end.

Definition run (acts : list action) (w : world) : world :=
  foldl (λ u a, step a u) w acts.

(** An empty page: nothing allocated, nothing scheduled, nothing sent. The
    instance slot is filled by the constructor. *)
Definition page : world :=
  mkWorld ∅
    (mkAPI EmptyString VUndefined VUndefined VUndefined VUndefined false false 0 None
           (mkEndpoints EmptyString EmptyString EmptyString EmptyString EmptyString) VUndefined)
    0 [] 1%positive [] [] [] [] [] [].

(** [new API(route, init, params, meta, autoload)] on an empty page. *)
Definition new_API (route : string) (init params meta autoload : value) : world :=
  fst (API.constructor route init params meta autoload page).

(** ** Vocabulary of the statements *)

(** What holds of every world the page can reach: a pending timer is the one
    whose handle the instance keeps ("at most one pending delayed task"),
    and only requests that were sent have settled. *)
Definition wf (w : world) : Prop :=
  Forall (λ t, _debouncing (this w) = Some (handle t)) (timers w) ∧
  Forall (λ i, (i < length (sent w))%nat) (settled w).

(** Nothing is loading, saving or scheduled, and no fetch was ever made. *)
Definition idle (w : world) : Prop :=
  _loading (this w) = false ∧ _saving (this w) = false ∧
  _debouncing (this w) = None ∧ timers w = [].

(** A timer with handle [h] is scheduled and has not fired. *)
Definition pending (h : positive) (w : world) : Prop :=
  h ∈ handle <$> timers w.

(** What a response handler leaves alone: the objects of the heap (it only
    allocates), the timers, the requests, and the fields of the instance
    that only method calls write. *)
Record stable (w w' : world) : Prop := mkStable {
  st_heap : ∀ l o, heap w !! l = Some o → heap w' !! l = Some o;
  st_params : _params (this w') = _params (this w);
  st_route : _route (this w') = _route (this w);
  st_endpoints : _endpoints (this w') = _endpoints (this w);
  st_debounce : _debounce (this w') = _debounce (this w);
  st_debouncing : _debouncing (this w') = _debouncing (this w);
  st_callback : _callback (this w') = _callback (this w);
  st_now : now w' = now w;
  st_timers : timers w' = timers w;
  st_next_handle : next_handle w' = next_handle w;
  st_sent : sent w' = sent w;
  st_settled : settled w' = settled w
}.

Definition quiet {A} (m : M A) : Prop := ∀ w, stable w (fst (m w)).

(** From a world where [P] holds the computation ends, normally or by
    throwing, in a world where [Q] holds. *)
Definition hoare {A} (P : world → Prop) (m : M A) (Q : world → Prop) : Prop :=
  ∀ w, P w → Q (fst (m w)).

(** The fields no step writes once the constructor has run. *)
Definition settings (a : API) : string * endpoints * Z :=
  (_route a, _endpoints a, _debounce a).

(** The parameter bag at [p] stays the stored one and loses no key, and
    every request sent meanwhile resolves its route with all of the keys. *)
Definition keeps (p : loc) (w w' : world) : Prop :=
  ∀ m, _params (this w) = VRef p → heap w !! p = Some (Obj m) →
    _params (this w') = VRef p ∧
    ∃ m' new,
      heap w' !! p = Some (Obj m') ∧ dom m ⊆ dom m' ∧
      sent w' = sent w ++ new ∧
      Forall (λ rq, dom m ⊆ dom (req_resolved rq)) new.

(** The fields a response handler assigns. *)
Inductive handler_field : (API → API) → Prop :=
| hf_data v : handler_field (set_data v)
| hf_meta v : handler_field (set_meta v)
| hf_raw v : handler_field (set_raw v)
| hf_loading b : handler_field (set_loading b)
| hf_saving b : handler_field (set_saving b).

(** The timer a fetch schedules. *)
Definition scheduled (j : task) (w : world) : timer :=
  mkTimer (next_handle w) (debounce_delay (this w))
          (now w + Z.max 0 (debounce_delay (this w))) j.

(** The world a fetch ([get], [show]) returns in, when the stored
    parameters are neither [undefined] nor [null]. *)
Definition fetched (j : task) (ps : value) (w : world) : world :=
  mkWorld (heap_assign (heap w) (_params (this w)) (own_props (heap w) ps))
          (set_debouncing (Some (next_handle w)) (set_loading true (this w)))
          (now w)
          (cancel (_debouncing (this w)) (timers w) ++ [scheduled j w])
          (Pos.succ (next_handle w))
          (sent w) (settled w) (console w) (emitted w) (invoked w) (unhandled w).

(** The request a write ([post], [update]) sends, and the world it returns
    in. *)
Definition written (v : verb) (endpoint : endpoints → string) (k : chain)
    (ps body : value) (w : world) : world :=
  let h := heap_assign (heap w) (_params (this w)) (own_props (heap w) ps) in
  mkWorld h (set_saving true (this w)) (now w) (timers w) (next_handle w)
          (sent w ++ [mkRequest v (_route (this w) +:+ endpoint (_endpoints (this w)))
                                (_params (this w)) (own_props h (_params (this w)))
                                body k])
          (settled w) (console w) (emitted w) (invoked w) (unhandled w).

(** The request [delete] sends, and the world it returns in. *)
Definition deleted (id callback ps : value) (w : world) : world :=
  let h1 := heap_assign (heap w) (_params (this w)) (own_props (heap w) ps) in
  let h := heap_assign h1 (_params (this w)) {[ "id" := id ]} in
  mkWorld h (this w) (now w) (timers w) (next_handle w)
          (sent w ++ [mkRequest DELETE (_route (this w) +:+ destroy (_endpoints (this w)))
                                (_params (this w)) (own_props h (_params (this w)))
                                VUndefined (KDestroy id callback)])
          (settled w) (console w) (emitted w) (invoked w) (unhandled w).

(** [error.response.data.message], when [error], [error.response] and
    [error.response.data] are neither [undefined] nor [null]. *)
Definition error_message (h : gmap loc object) (error : value) : option value :=
  if nullish error then None
  else let response := read_prop h "response" error in
       if nullish response then None
       else let data := read_prop h "data" response in
            if nullish data then None
            else Some (read_prop h "message" data).

(** A callback argument: a function, or nothing ([null], [undefined] or
    another falsy value). *)
Definition is_callback (v : value) : Prop :=
  truthy v = false ∨ ∃ f, v = VFun f.

Definition callbacks (v : value) : list fn :=
  match v with
  | VFun f => [f]
  | _ => []
  end.

(** The parameters a merging call brings: fetch-all, fetch-one, create and
    update. *)
Definition merged_by (c : method) : option value :=
  match c with
  | m_get p _ | m_show p _ | m_post p _ _ | m_update p _ _ => Some p
  | _ => None
  end.

(** [params(...)] replaces the stored parameters wholesale. *)
Definition replaces (a : action) : Prop :=
  match a with
  | Call (m_params _) => True
  | _ => False
  end.

(** A merging call whose parameters are a live value other than the stored
    bag at [p] itself. *)
Definition mergeable (h : gmap loc object) (p : loc) (c : method) : Prop :=
  ∃ v, merged_by c = Some v ∧ v ≠ VRef p ∧ ∀ l, v = VRef l → l ∈ dom h.

(** The maps the calls bring, in call order. *)
Definition merged_maps (h : gmap loc object) (calls : list method)
  : list (gmap string value) :=
  omap (λ c, own_props h <$> merged_by c) calls.

(** Anything but a method call of the application. *)
Definition no_call (a : action) : Prop :=
  match a with
  | Call _ => False
  | _ => True
  end.

(** The shallow union of the merged maps, the later over the earlier. *)
Definition shallow_union (m0 : gmap string value) (ms : list (gmap string value))
  : gmap string value :=
  foldl (λ acc m, m ∪ acc) m0 ms.

(** [new API('users', null, {}, {}, false)] *)
Definition client : world :=
  new_API "users" VUndefined VUndefined VUndefined (VBool false).

(** ** Worlds for the scenarios *)

(** An error of the shape [{response: {data: {message: "Not found"}}}], at
    location 6. *)
Definition not_found : world :=
  run [New (Obj {[ "message" := VStr "Not found" ]});
       New (Obj {[ "data" := VRef 4%positive ]});
       New (Obj {[ "response" := VRef 5%positive ]})] client.

(** An error whose body carries no message, [{response: {data: {}}}], at
    location 6. *)
Definition no_message : world :=
  run [New (Obj ∅);
       New (Obj {[ "data" := VRef 4%positive ]});
       New (Obj {[ "response" := VRef 5%positive ]})] client.

(** What axios rejects with when the server cannot be reached: an error
    without [response], at location 4. *)
Definition network_error : world :=
  run [New (Obj {[ "message" := VStr "Network Error" ]})] client.

(** A response [{data: {data: [{id: 1}, {id: 2}], meta: null}}], at
    location 8. *)
Definition listing : world :=
  run [New (Obj {[ "id" := VNum 1 ]});
       New (Obj {[ "id" := VNum 2 ]});
       New (Arr [VRef 4%positive; VRef 5%positive]);
       New (Obj {[ "data" := VRef 6%positive; "meta" := VNull ]});
       New (Obj {[ "data" := VRef 7%positive ]})] client.

(** The client once that response has arrived. *)
Definition listed : world :=
  run [Call (m_get VUndefined VNull); Tick 0;
       Settle 0 (Fulfilled (VRef 8%positive))] listing.

(** Two parameter objects, [{page: 1}] and [{page: 2, per_page: 10}], at
    locations 4 and 5. *)
Definition paging : world :=
  run [New (Obj {[ "page" := VNum 1 ]});
       New (Obj {[ "page" := VNum 2; "per_page" := VNum 10 ]})] client.

(** The client after a first fetch whose timer has fired. *)
Definition fetched_once : world :=
  run [Call (m_get VUndefined VNull); Tick 0] client.

(** The client with a registered success callback. *)
Definition subscribed : world :=
  run [Call (m_onSuccess (VFun 1%positive))] client.

(** ** The remaining methods: [exclude], [only] and [save] *)

(** The numbers whose decimal text the model gives: the safe integers. *)
Definition safe_integer (n : Z) : bool := Z.abs n <=? 9007199254740991.

(** The text [join] gives an element that is a primitive: nothing for
    [undefined] and [null], the value's own text otherwise. *)
Definition element_text (v : value) : option string :=
  match v with
  | VUndefined | VNull => Some EmptyString
  | VBool b => Some (if b then "true" else "false")
  | VNum n => if safe_integer n then Some (pretty n) else None
  | VStr s => Some s
  | VRef _ | VFun _ | VTypeError => None
  end.

Module Rest.

Section Join.

(** [String(v)] for an element the model has no text for (an object with
    its [toString], a function, a number beyond the safe integers): what the
    page makes of it, side effects and exceptions included. *)
Variable to_string : value → M string.

(** [f.call(v, sep)] for a function [f] the caller has stored in an object
    under the name [join]: whatever that function does and returns. *)
Variable own_join : fn → value → string → M value.

Definition element (v : value) : M string :=
  match element_text v with
  | Some s => ret s
  | None => to_string v
  end.

(** The loop of [Array.prototype.join], left to right. *)
Fixpoint join_elements (sep : string) (xs : list value) : M string :=
  match xs with
  | [] => ret EmptyString
  | x :: xs' =>
      let! s := element x in
      match xs' with
      | [] => ret s
      | _ => let! r := join_elements sep xs' in ret (s +:+ sep +:+ r)
      end
  end.

(** [v.join(sep)]: an array has the [join] of its prototype; a plain object
    has one if it owns a function under that name; nothing else has. *)
Definition join (sep : string) (v : value) : M value :=
  let! o := gets (λ w, match v with VRef l => heap w !! l | _ => None end) in
  match o with
  | Some (Arr xs) => let! s := join_elements sep xs in ret (VStr s)
  | Some (Obj m) =>
      match m !! "join" with
      | Some (VFun f) => own_join f v sep
      | _ => throw VTypeError
      end
  | _ => throw VTypeError
  end.

(** A default value [x = []] of a parameter. *)
Definition default_array (v : value) : M value :=
  match v with
  | VUndefined => let! l := alloc (Arr []) in ret (VRef l)
  | _ => ret v
  end.

(** [this.params({key: ids.join(',')}); return this]. The literal is of no
    use to anyone before [params] receives it, so it enters the heap
    complete. *)
Definition filter_by (key : string) (ids : value) : M returned :=
  let! ids := default_array ids in
  let! s := join "," ids in
  let! o := alloc (Obj {[ key := s ]}) in
  API.params (VRef o) ;;
  ret Self.

(** [exclude(ids = [])] *)
Definition exclude (ids : value) : M returned := filter_by "exclude" ids.

(** [only(ids = [])] *)
Definition only (ids : value) : M returned := filter_by "only" ids.

End Join.

(** The properties a string wrapper owns and does not let be written. *)
Definition string_owns (s k : string) : bool :=
  String.eqb k "length" || bool_decide (is_Some (indexed (chars s) !! k)).

(** The value of the expression [Object.assign(target, source)]: the target
    itself when it is an object; for a primitive, the wrapper object made
    for the occasion, which receives the properties (a string wrapper
    refuses those it owns). As with [heap_assign], only plain objects are
    given properties. *)
Definition assigned (target source : value) : M value :=
  let! m := gets (λ w, own_props (heap w) source) in
  assign_props target m ;;
  match target with
  | VBool _ | VNum _ =>
      let! l := alloc (Obj m) in ret (VRef l)
  | VStr s =>
      if bool_decide (Exists (λ k, string_owns s k = true) (elements (dom m)))
      then throw VTypeError
      else let! l := alloc (Obj (m ∪ indexed (chars s))) in ret (VRef l)
  | _ => ret target
  end.

(** [save(data = {}, update = false, id = {}, params = {})] *)
Definition save (data update id params_ : value) : M returned :=
  let! data := default_object data in
  let! id := default_object id in
  let! params_ := default_object params_ in
  (if truthy update then
     let! target := assigned id params_ in
     API.update target data VUndefined
   else API.post params_ data VUndefined) ;;
  ret Self.

End Rest.

(** ** The constructor and the handlers, in closed form *)

(** What the constructor takes from [init]: its [data] and its [meta], each
    only if truthy. *)
Definition seed (h : gmap loc object) (init : value) (a : API) : API :=
  if truthy init then
    let d := read_prop h "data" init in
    let m := read_prop h "meta" init in
    let a1 := if truthy d then set_data d a else a in
    if truthy m then set_meta m a1 else a1
  else a.

(** [autoload && this._route !== ''], with [autoload = true] by default. *)
Definition autoloads (autoload : value) (route : string) : bool :=
  truthy (match autoload with VUndefined => VBool true | v => v end)
  && negb (String.eqb route EmptyString).

(** The fields as the constructor first writes them. *)
Definition blank (route : string) (ps meta data : value) : API :=
  mkAPI route ps meta VNull data false false 1000 None
        (mkEndpoints ".index" ".destroy" ".show" ".store" ".update") VNull.

(** The instance once the handler of [get] ([raw] false) or of [show]
    ([raw] true) has stored the response [r]. *)
Definition received (raw : bool) (h : gmap loc object) (r : value) (a : API) : API :=
  let body := read_prop h "data" r in
  let a1 := set_meta (read_prop h "meta" body) (set_data (read_prop h "data" body) a) in
  set_loading false (if raw then set_raw body a1 else a1).

(** A callback that passes [if (callback)] and cannot be called. *)
Definition not_callable (v : value) : Prop :=
  truthy v = true ∧ ∀ f, v ≠ VFun f.

(** Stored data that the handler of [delete] cannot filter: no array (a
    plain object would need a [filter] of its own), or an array with a
    nullish element. *)
Definition no_records (h : gmap loc object) (v : value) : Prop :=
  match v with
  | VRef a =>
      match h !! a with
      | Some (Arr xs) => Exists (λ d, nullish d = true) xs
      | Some (Obj m) => ∀ f, m !! "filter" ≠ Some (VFun f)
      | _ => True
      end
  | _ => True
  end.

(** A call of [params]. *)
Definition sets_params (a : action) : Prop := ∃ v, a = Call (m_params v).

(** ** Vocabulary for [exclude], [only] and [save] *)

(** The texts of the ids, when [ids] is left out or is an array of
    primitives. *)
Definition texts_of (h : gmap loc object) (ids : value) : option (list string) :=
  match ids with
  | VUndefined => Some []
  | VRef a =>
      match h !! a with
      | Some (Arr xs) => mapM element_text xs
      | _ => None
      end
  | _ => None
  end.

(** A value given for [ids] that has no [join] to call. *)
Definition no_join (h : gmap loc object) (v : value) : Prop :=
  match v with
  | VUndefined => False
  | VRef l =>
      match h !! l with
      | Some (Arr _) => False
      | Some (Obj m) => ∀ f, m !! "join" ≠ Some (VFun f)
      | _ => True
      end
  | _ => True
  end.

(** [w1] is [w] with the stored parameters replaced by a new object
    [{key: texts.join(',')}]. *)
Definition filtered (key : string) (texts : list string) (w w1 : world) : Prop :=
  ∃ o, heap w !! o = None ∧
       this w1 = set_params (VRef o) (this w) ∧
       heap w1 !! o = Some (Obj {[ key := VStr (String.concat "," texts) ]}) ∧
       (∀ l x, heap w !! l = Some x → heap w1 !! l = Some x) ∧
       timers w1 = timers w ∧ sent w1 = sent w.

(** What [save] is documented to take for [id], an object, and what is
    likely passed for it, a number. *)
Definition plain_target (h : gmap loc object) (v : value) : Prop :=
  match v with
  | VRef i => ∃ m, h !! i = Some (Obj m)
  | VNum _ | VBool _ => True
  | _ => False
  end.

(** ** Further scenarios *)

(** A page that holds [{data: []}], at location 2, before the client is
    made. *)
Definition preloaded : world :=
  run [New (Arr []); New (Obj {[ "data" := VRef 1%positive ]})] page.

(** The client after [params(null)]. *)
Definition unset : world :=
  run [Call (m_params VNull)] client.

(** The client after a create whose callback is the number 1. *)
Definition posted_with_number : world :=
  run [Call (m_post VUndefined VUndefined (VNum 1))] client.

(** The client with a string for data, after a delete. *)
Definition mislaid : world :=
  run [Call (m_data (VStr "x")); Call (m_delete (VNum 1) VNull VUndefined)] client.

(** The ids [[1, 2]], at location 4. *)
Definition chosen : world :=
  run [New (Arr [VNum 1; VNum 2])] client.

(** A page where no object has a text and no [join] of its own returns. *)
Definition no_text : value → M string := λ _, throw VTypeError.
Definition no_own_join : fn → value → string → M value := λ _ _ _, throw VTypeError.

(** The client with a string registered as success callback. *)
Definition misregistered : world :=
  run [Call (m_onSuccess (VStr "x"))] client.

(** The client whose data is [[{id: 1}, null]], the array at location 5. *)
Definition gapped : world :=
  run [New (Obj {[ "id" := VNum 1 ]});
       New (Arr [VRef 4%positive; VNull]);
       Call (m_data (VRef 5%positive))] client.

(** * Proofs *)

(** ** Response handlers are quiet *)

Section Quiet.

Lemma stable_refl w : stable w w.
Proof. by constructor. Qed.

Lemma stable_trans w1 w2 w3 : stable w1 w2 → stable w2 w3 → stable w1 w3.
Proof.
  intros [] []. constructor; try congruence. auto.
Qed.

Context {A B : Type}.

Lemma quiet_ret (a : A) : quiet (ret a).
Proof. intros w. apply stable_refl. Qed.

Lemma quiet_throw e : quiet (@throw A e).
Proof. intros w. apply stable_refl. Qed.

Lemma quiet_gets (f : world → A) : quiet (gets f).
Proof. intros w. apply stable_refl. Qed.

Lemma quiet_bind (m : M A) (k : A → M B) :
  quiet m → (∀ a, quiet (k a)) → quiet (bind m k).
Proof.
  intros Hm Hk w. unfold bind. specialize (Hm w).
  destruct (m w) as [w' [a|e]]; simpl in *; [|done].
  eapply stable_trans; [done|apply Hk].
Qed.

Lemma quiet_catch (m : M A) (h : value → M A) :
  quiet m → (∀ e, quiet (h e)) → quiet (catch m h).
Proof.
  intros Hm Hh w. unfold catch. specialize (Hm w).
  destruct (m w) as [w' [a|e]]; simpl in *; [done|].
  eapply stable_trans; [done|apply Hh].
Qed.

End Quiet.

Lemma quiet_get_prop k v : quiet (get_prop k v).
Proof. unfold get_prop. destruct (nullish v); [apply quiet_throw|apply quiet_gets]. Qed.

Lemma quiet_alloc o : quiet (alloc o).
Proof.
  intros w. constructor; try done. simpl. intros l o' Hl.
  rewrite lookup_insert_ne; [done|]. intros Heq.
  apply (is_fresh (dom (heap w))). rewrite Heq. by apply elem_of_dom.
Qed.

Lemma quiet_console_log v : quiet (console_log v).
Proof. intros w. by constructor. Qed.

Lemma quiet_emit ev v : quiet (emit ev v).
Proof. intros w. by constructor. Qed.

Lemma quiet_call f arg : quiet (call f arg).
Proof. destruct f; try apply quiet_throw. intros w. by constructor. Qed.

Lemma quiet_notify cb r : quiet (API.notify cb r).
Proof. unfold API.notify. destruct (truthy cb); [apply quiet_call|apply quiet_ret]. Qed.

Lemma quiet_field {A} (f : API → A) : quiet (API.field f).
Proof. apply quiet_gets. Qed.

Lemma quiet_assign_this f : handler_field f → quiet (assign_this f).
Proof. intros [] w; by constructor. Qed.

Create HintDb quiet.
#[local] Hint Resolve quiet_ret quiet_throw quiet_gets quiet_get_prop quiet_alloc
  quiet_console_log quiet_emit quiet_call quiet_notify quiet_field
  quiet_assign_this hf_data hf_meta hf_raw hf_loading hf_saving : quiet.

Ltac quiet :=
  repeat first
    [ solve [eauto with quiet]
    | apply quiet_bind; [|intros ?]
    | apply quiet_catch; [|intros ?] ].

Lemma quiet_data v : quiet (API.data v).
Proof. unfold API.data. destruct (truthy v); quiet. Qed.

Lemma quiet_filterM p xs : (∀ x, quiet (p x)) → quiet (filterM p xs).
Proof. intros Hp. induction xs as [|x xs IH]; simpl; quiet. Qed.

Lemma quiet_array_filter p v : (∀ x, quiet (p x)) → quiet (array_filter p v).
Proof.
  intros Hp. unfold array_filter. apply quiet_bind; [quiet|].
  intros [[| |]|]; quiet. by apply quiet_filterM.
Qed.

#[local] Hint Resolve quiet_data quiet_filterM quiet_array_filter : quiet.

Lemma quiet_index_then cb r : quiet (API.index_then cb r).
Proof. unfold API.index_then. quiet. Qed.

Lemma quiet_show_then cb r : quiet (API.show_then cb r).
Proof. unfold API.show_then. quiet. Qed.

Lemma quiet_store_then cb r : quiet (API.store_then cb r).
Proof. unfold API.store_then. quiet. Qed.

Lemma quiet_update_then cb r : quiet (API.update_then cb r).
Proof. unfold API.update_then. quiet. Qed.

Lemma quiet_constructor e : quiet (APIException.constructor e).
Proof. unfold APIException.constructor. quiet. Qed.

Lemma quiet_store_catch e : quiet (API.store_catch e).
Proof. unfold API.store_catch. quiet. Qed.

Lemma quiet_destroy_then id cb r : quiet (API.destroy_then id cb r).
Proof.
  unfold API.destroy_then. apply quiet_bind; [|intros ?; quiet].
  apply quiet_bind; [quiet|]. intros [|v]; [quiet|].
  apply quiet_bind; [|intros ?; quiet].
  apply quiet_array_filter. intros x. quiet.
Qed.

Lemma quiet_settle_chain k o : quiet (settle_chain k o).
Proof.
  destruct k, o; simpl;
    auto using quiet_index_then, quiet_show_then, quiet_store_then,
      quiet_update_then, quiet_destroy_then with quiet.
  - apply quiet_catch; auto using quiet_store_then, quiet_store_catch.
  - apply quiet_catch; auto using quiet_store_catch with quiet.
Qed.

Lemma stable_job_run m w : quiet m → stable w (job_run m w).
Proof.
  intros Hm. unfold job_run. specialize (Hm w).
  destruct (m w) as [w' [|e]]; simpl in *; [done|].
  destruct Hm. by constructor.
Qed.

(** A response changes neither the heap objects, nor the timers, nor the
    requests, nor the stored parameters. *)
Lemma settle_frame i o w :
  (∀ l x, heap w !! l = Some x → heap (settle i o w) !! l = Some x) ∧
  _params (this (settle i o w)) = _params (this w) ∧
  _route (this (settle i o w)) = _route (this w) ∧
  _endpoints (this (settle i o w)) = _endpoints (this w) ∧
  _debounce (this (settle i o w)) = _debounce (this w) ∧
  _debouncing (this (settle i o w)) = _debouncing (this w) ∧
  _callback (this (settle i o w)) = _callback (this w) ∧
  now (settle i o w) = now w ∧
  timers (settle i o w) = timers w ∧
  next_handle (settle i o w) = next_handle w ∧
  sent (settle i o w) = sent w.
Proof.
  unfold settle. destruct (sent w !! i) as [rq|]; [|done].
  case_bool_decide; [done|].
  destruct (stable_job_run (settle_chain (req_chain rq) o)
              (with_settled (i :: settled w) w) (quiet_settle_chain _ _)).
  simpl in *. repeat split; done.
Qed.

(** ** Timers *)

Lemma fire_frame t w :
  heap (fire t w) = heap w ∧ this (fire t w) = this w ∧ now (fire t w) = now w ∧
  next_handle (fire t w) = next_handle w ∧ settled (fire t w) = settled w ∧
  console (fire t w) = console w ∧ emitted (fire t w) = emitted w ∧
  invoked (fire t w) = invoked w ∧ unhandled (fire t w) = unhandled w.
Proof.
  unfold fire. case_bool_decide; [|done]. by destruct (job t).
Qed.

Lemma fire_pending t w :
  pending (handle t) w →
  fire t w =
    with_sent (sent w ++ [mkRequest GET
        (_route (this w) +:+ match job t with
                             | TIndex _ => index (_endpoints (this w))
                             | TShow _ => show_ (_endpoints (this w))
                             end)
        (_params (this w)) (own_props (heap w) (_params (this w))) VUndefined
        match job t with TIndex cb => KIndex cb | TShow cb => KShow cb end])
      (with_timers (cancel (Some (handle t)) (timers w)) w).
Proof.
  intros Hp. unfold fire. rewrite bool_decide_eq_true_2 by done.
  by destruct (job t).
Qed.

(** No timer is due: only the clock moves. *)
Lemma tick_idle dt w :
  Forall (λ t, now w + Z.max 0 dt < due t) (timers w) →
  tick dt w = with_now (now w + Z.max 0 dt) w.
Proof.
  intros Hall. unfold tick, due_timers. simpl.
  replace (filter _ (timers w)) with (@nil timer); [done|].
  symmetry. induction Hall as [|t ts Ht _ IH]; [done|].
  rewrite filter_cons_False; [done|lia].
Qed.

(** The one pending timer is due: it fires. *)
Lemma tick_single dt w t :
  timers w = [t] → due t ≤ now w + Z.max 0 dt →
  tick dt w = fire t (with_now (now w + Z.max 0 dt) w).
Proof.
  intros Ht Hdue. unfold tick, due_timers. simpl. rewrite Ht.
  rewrite filter_cons_True by done. by rewrite filter_nil.
Qed.

(** ** Closed forms of the method calls *)

Ltac exec :=
  unfold API.get, API.show, API.post, API.update, API.delete, API.debounce,
    API.params, API.field, Object_assign, assign_props, default_object, alloc,
    axios, clearTimeout, setTimeout, assign_this, bind, gets, modify, ret, throw.

Lemma get_eq ps cb w :
  nullish (_params (this w)) = false →
  API.get ps cb w = (fetched (TIndex cb) ps w, Ok Self).
Proof. intros H. exec. simpl. rewrite H. reflexivity. Qed.

Lemma show_eq ps cb w :
  nullish (_params (this w)) = false →
  API.show ps cb w = (fetched (TShow cb) ps w, Ok Self).
Proof. intros H. exec. simpl. rewrite H. reflexivity. Qed.

(** On [undefined] or [null] stored parameters [Object.assign] throws: the
    flag is set, the old timer is cancelled, and nothing is scheduled. *)
Lemma get_throws ps cb w :
  nullish (_params (this w)) = true →
  API.get ps cb w =
    (with_this (set_loading true (this w))
       (with_timers (cancel (_debouncing (this w)) (timers w)) w), Throw VTypeError).
Proof. intros H. exec. simpl. rewrite H. reflexivity. Qed.

Lemma post_eq ps d cb w :
  nullish (_params (this w)) = false → d ≠ VUndefined →
  API.post ps d cb w = (written POST store (KStore cb) ps d w, Ok Self).
Proof.
  intros H Hd. exec. destruct w as [h [] ]. simpl in *.
  destruct d; try done; simpl; rewrite H; reflexivity.
Qed.

Lemma post_default ps cb w :
  nullish (_params (this w)) = false →
  API.post ps VUndefined cb w =
    (written POST store (KStore cb) ps (VRef (fresh (dom (heap w))))
       (fst (alloc (Obj ∅) w)), Ok Self).
Proof.
  intros H. exec. destruct w as [h [] ]. simpl in *. rewrite H. reflexivity.
Qed.

Lemma update_eq ps d cb w :
  nullish (_params (this w)) = false → d ≠ VUndefined →
  API.update ps d cb w = (written PUT update_ (KUpdate cb) ps d w, Ok Self).
Proof.
  intros H Hd. exec. destruct w as [h [] ]. simpl in *.
  destruct d; try done; simpl; rewrite H; reflexivity.
Qed.

Lemma update_default ps cb w :
  nullish (_params (this w)) = false →
  API.update ps VUndefined cb w =
    (written PUT update_ (KUpdate cb) ps (VRef (fresh (dom (heap w))))
       (fst (alloc (Obj ∅) w)), Ok Self).
Proof.
  intros H. exec. destruct w as [h [] ]. simpl in *. rewrite H. reflexivity.
Qed.

Lemma delete_eq id cb ps w :
  nullish (_params (this w)) = false →
  API.delete id cb ps w = (deleted id cb ps w, Ok Self).
Proof.
  intros H. exec. destruct w as [h [] ]. simpl in *. rewrite H. reflexivity.
Qed.

(** ** The heap under [Object.assign] and allocation *)

Lemma heap_assign_obj h p m n :
  h !! p = Some (Obj m) → heap_assign h (VRef p) n = <[p := Obj (n ∪ m)]> h.
Proof. intros H. simpl. by rewrite H. Qed.

Lemma heap_assign_lookup h p m n :
  h !! p = Some (Obj m) → heap_assign h (VRef p) n !! p = Some (Obj (n ∪ m)).
Proof. intros H. rewrite (heap_assign_obj h p m) by done. apply lookup_insert_eq. Qed.

Lemma heap_assign_other h t n l :
  t ≠ VRef l → heap_assign h t n !! l = h !! l.
Proof.
  intros Hne. destruct t as [| | | | |l'| |]; try done. simpl.
  destruct (h !! l') as [[]|] eqn:E; try done.
  rewrite lookup_insert_ne; [done|congruence].
Qed.

Lemma lookup_fresh (h : gmap loc object) l o o' :
  h !! l = Some o → <[fresh (dom h) := o']> h !! l = Some o.
Proof.
  intros H. rewrite lookup_insert_ne; [done|]. intros Heq.
  apply (is_fresh (dom h)). rewrite Heq. by apply elem_of_dom.
Qed.

(** ** What no step changes *)

Section Hoare.
Context {A B : Type}.

Lemma hoare_bind (P R Q : world → Prop) (m : M A) (k : A → M B) :
  hoare P m R → (∀ a, hoare R (k a) Q) → (∀ w, R w → Q w) →
  hoare P (bind m k) Q.
Proof.
  intros Hm Hk HRQ w HP. unfold bind. specialize (Hm w HP).
  destruct (m w) as [w' [a|e]]; simpl in *; [by apply Hk|by apply HRQ].
Qed.

Lemma hoare_ret (P : world → Prop) (a : A) : hoare P (ret a) P.
Proof. by intros w. Qed.

Lemma hoare_weaken (P Q Q' : world → Prop) (m : M A) :
  hoare P m Q → (∀ w, Q w → Q' w) → hoare P m Q'.
Proof. intros Hm HQ w HP. apply HQ. by apply Hm. Qed.
End Hoare.

Ltac exec_all :=
  unfold invoke, API.query, API.goTo, API.onSuccess, API.loading, API.saving,
    API.data, API.meta; exec.

Lemma invoke_settings c w :
  settings (this (fst (invoke c w))) = settings (this w) ∧
  (is_Some (_debouncing (this w)) → is_Some (_debouncing (this (fst (invoke c w))))).
Proof.
  destruct c; exec_all; simpl; repeat (case_match; simplify_eq/=); eauto.
Qed.

Lemma fires_frame ts w :
  let w' := foldl (λ u t, fire t u) w ts in
  heap w' = heap w ∧ this w' = this w ∧ settled w' = settled w ∧
  next_handle w' = next_handle w ∧ now w' = now w ∧
  (∃ new, sent w' = sent w ++ new ∧
          Forall (λ rq, req_resolved rq = own_props (heap w) (_params (this w))) new) ∧
  timers w' ⊆ timers w.
Proof.
  revert w. induction ts as [|t ts IH]; intros w; simpl.
  { repeat split; try done. exists []. by rewrite app_nil_r. }
  destruct (IH (fire t w)) as (Hh & Ht & Hs & Hn & Hc & (new & Hsent & Hnew) & Hsub).
  destruct (fire_frame t w) as (Fh & Ft & Fc & Fn & Fs & _).
  rewrite Hh, Ht, Hs, Hn, Hc, Fh, Ft, Fs, Fn, Fc. repeat split; try done.
  - rewrite Hsent. rewrite Fh, Ft in Hnew. unfold fire. case_bool_decide.
    + destruct (job t); simpl; eexists (_ :: new);
        (split; [by rewrite <- app_assoc|by constructor]).
    + by exists new.
  - etrans; [done|]. unfold fire. case_bool_decide; [|done].
    destruct (job t); simpl; apply list_subseteq_filter.
Qed.

(** Time passing leaves the instance and the heap alone; it only sends the
    requests of the timers that fire, each with the stored parameters as
    they are. *)
Lemma tick_frame dt w :
  heap (tick dt w) = heap w ∧ this (tick dt w) = this w ∧
  settled (tick dt w) = settled w ∧ next_handle (tick dt w) = next_handle w ∧
  (∃ new, sent (tick dt w) = sent w ++ new ∧
          Forall (λ rq, req_resolved rq = own_props (heap w) (_params (this w))) new) ∧
  timers (tick dt w) ⊆ timers w.
Proof.
  unfold tick.
  destruct (fires_frame (due_timers (with_now (now w + Z.max 0 dt) w))
              (with_now (now w + Z.max 0 dt) w)) as (? & ? & ? & ? & ? & ? & ?).
  done.
Qed.

Lemma step_settings a w :
  settings (this (step a w)) = settings (this w) ∧
  (is_Some (_debouncing (this w)) → is_Some (_debouncing (this (step a w)))).
Proof.
  destruct a as [c|o|dt|i o]; simpl.
  - apply invoke_settings.
  - done.
  - destruct (tick_frame dt w) as (_ & -> & _). done.
  - destruct (settle_frame i o w) as (_ & _ & Hr & He & Hd & Hg & _).
    unfold settings. by rewrite Hr, He, Hd, Hg.
Qed.

Lemma run_settings acts w :
  settings (this (run acts w)) = settings (this w) ∧
  (is_Some (_debouncing (this w)) → is_Some (_debouncing (this (run acts w)))).
Proof.
  revert w. induction acts as [|a acts IH]; intros w; [done|]. simpl.
  destruct (IH (step a w)) as [-> Hs], (step_settings a w) as [-> Hs'].
  auto.
Qed.

Lemma hoare_invoke_settings s c :
  hoare (λ w, settings (this w) = s) (invoke c) (λ w, settings (this w) = s).
Proof. intros w <-. apply invoke_settings. Qed.

Lemma hoare_quiet_settings {A} s (m : M A) :
  quiet m → hoare (λ w, settings (this w) = s) m (λ w, settings (this w) = s).
Proof.
  intros Hm w <-. destruct (Hm w). unfold settings. congruence.
Qed.

Lemma constructor_settings route init ps meta autoload w :
  settings (this (fst (API.constructor route init ps meta autoload w))) =
    (route, mkEndpoints ".index" ".destroy" ".show" ".store" ".update", 1000).
Proof.
  set (s := (route, _, _)).
  set (P := λ w : world, settings (this w) = s).
  enough (hoare (λ _, True) (API.constructor route init ps meta autoload) P) as H
    by by apply H.
  unfold API.constructor.
  assert (∀ (m : M returned), hoare P m P → hoare P (m ;; ret ()) P) as Hseq.
  { intros m Hm. eapply hoare_bind; [done|intros; apply hoare_ret|done]. }
  intros w0 _. unfold bind at 1. destruct (default_object ps w0) as [w1 [ps1|e]] eqn:E1.
  2: { by destruct ps. }
  unfold bind at 1. destruct (default_object meta w1) as [w2 [meta1|e]] eqn:E2.
  2: { by destruct meta. }
  unfold bind at 1. simpl. unfold bind at 1. simpl.
  match goal with |- P (fst (?m ?w)) => enough (hoare P m P) as H by by apply H end.
  eapply hoare_bind; [| |done].
  - destruct (truthy init); [|apply hoare_ret].
    eapply hoare_bind; [| |done].
    + eapply hoare_bind; [by apply hoare_quiet_settings, quiet_get_prop| |done].
      intros d. apply (hoare_invoke_settings s (m_data d)).
    + intros _. apply Hseq.
      eapply hoare_bind; [by apply hoare_quiet_settings, quiet_get_prop| |done].
      intros d. apply (hoare_invoke_settings s (m_meta d)).
  - intros _. case_match; [|apply hoare_ret].
    apply Hseq. apply (hoare_invoke_settings s (m_get VUndefined VUndefined)).
Qed.

Lemma new_API_settings route init ps meta autoload :
  settings (this (new_API route init ps meta autoload)) =
    (route, mkEndpoints ".index" ".destroy" ".show" ".store" ".update", 1000).
Proof. apply constructor_settings. Qed.

(** ** Well-formed worlds *)

Lemma cancel_wf h ts :
  Forall (λ t : timer, h = Some (handle t)) ts → cancel h ts = [].
Proof.
  destruct h as [i|]; simpl.
  - induction 1 as [|t ts Ht _ IH]; [done|].
    rewrite filter_cons_False; [done|]. intros Hne. congruence.
  - by destruct 1.
Qed.

Lemma Forall_lt_app (st : list nat) {A} (xs ys : list A) :
  Forall (λ i, (i < length xs)%nat) st → Forall (λ i, (i < length (xs ++ ys))%nat) st.
Proof.
  intros H. eapply Forall_impl; [exact H|]. simpl. intros i Hi. rewrite length_app. lia.
Qed.

Lemma wf_invoke c w : wf w → wf (fst (invoke c w)).
Proof.
  intros [Ht Hs]. pose proof (cancel_wf _ _ Ht) as Hc.
  destruct c; exec_all; unfold wf; simpl; repeat (case_match; simplify_eq/=);
    rewrite ?Hc; simpl; split; auto using Forall_lt_app.
Qed.

Lemma wf_tick dt w : wf w → wf (tick dt w).
Proof.
  intros [Ht Hs]. destruct (tick_frame dt w) as (_ & Hthis & Hset & _ & (new & Hsent & _) & Hsub).
  split.
  - rewrite Hthis. rewrite Forall_forall in Ht |- *. intros t Hin. apply Ht. by apply Hsub.
  - rewrite Hset, Hsent. by apply Forall_lt_app.
Qed.

Lemma wf_settle i o w : wf w → wf (settle i o w).
Proof.
  intros [Ht Hs]. unfold settle. destruct (sent w !! i) as [rq|] eqn:Hi; [|done].
  case_bool_decide; [done|].
  pose proof (stable_job_run (settle_chain (req_chain rq) o)
                (with_settled (i :: settled w) w) (quiet_settle_chain _ _)) as Hst.
  split.
  - by rewrite (st_debouncing _ _ Hst), (st_timers _ _ Hst).
  - rewrite (st_settled _ _ Hst), (st_sent _ _ Hst). simpl.
    constructor; [|done]. by eapply lookup_lt_Some.
Qed.

Lemma wf_step a w : wf w → wf (step a w).
Proof.
  destruct a; simpl; auto using wf_invoke, wf_tick, wf_settle.
Qed.

Lemma wf_run acts w : wf w → wf (run acts w).
Proof.
  revert w. induction acts as [|a acts IH]; intros w Hw; [done|].
  simpl. apply IH. by apply wf_step.
Qed.

Lemma wf_idle w : timers w = [] → settled w = [] → wf w.
Proof. intros Ht Hs. split; [rewrite Ht|rewrite Hs]; constructor. Qed.

Lemma wf_constructor route init ps meta autoload w :
  timers w = [] → settled w = [] →
  wf (fst (API.constructor route init ps meta autoload w)).
Proof.
  set (R := λ w : world, timers w = [] ∧ settled w = []).
  assert (∀ w, R w → wf w) as HR by (intros ? []; by apply wf_idle).
  assert (∀ {A} (m : M A), quiet m → hoare R m R) as Hq.
  { intros A m Hm u [Ht Hs]. destruct (Hm u). split; congruence. }
  intros Ht Hs.
  enough (hoare R (API.constructor route init ps meta autoload) wf) as H
    by by apply H.
  unfold API.constructor.
  eapply hoare_bind; [apply Hq; destruct ps; quiet| |done]. intros ps1.
  eapply hoare_bind; [apply Hq; destruct meta; quiet| |done]. intros meta1.
  eapply hoare_bind; [apply Hq; quiet| |done]. intros empty.
  apply (hoare_bind R R); [by intros u []| |done]. intros _.
  apply (hoare_bind R R); [| |done].
  - destruct (truthy init); [|apply hoare_ret].
    apply (hoare_bind R R); [| |done].
    + eapply hoare_bind; [apply Hq; quiet| |done]. intros d. apply Hq; quiet.
    + intros _. eapply hoare_bind; [|intros; apply hoare_ret|done].
      eapply hoare_bind; [apply Hq; quiet| |done]. intros d.
      apply Hq. unfold API.meta. destruct (truthy d); quiet.
  - intros _. case_match; [|eapply hoare_weaken; [apply hoare_ret|done]].
    eapply hoare_bind; [|intros; apply hoare_ret|done].
    intros u Hu. apply (wf_invoke (m_get VUndefined VUndefined)). by apply HR.
Qed.

Lemma wf_new_API route init ps meta autoload :
  wf (new_API route init ps meta autoload).
Proof. by apply wf_constructor. Qed.

(** A client that does not load by itself is idle once constructed. *)
Lemma constructor_idle route init ps meta w :
  timers w = [] → idle (fst (API.constructor route init ps meta (VBool false) w)).
Proof.
  assert (∀ v, hoare idle (API.data v) idle) as Hdata.
  { intros v u Hu. unfold API.data. by destruct (truthy v). }
  assert (∀ v, hoare idle (API.meta v) idle) as Hmeta.
  { intros v u Hu. unfold API.meta. by destruct (truthy v). }
  assert (∀ k v, hoare idle (get_prop k v) idle) as Hget.
  { intros k v u Hu. unfold get_prop. by destruct (nullish v). }
  intros Ht. unfold API.constructor.
  unfold bind at 1. destruct (default_object ps w) as [w1 [ps1|e]] eqn:E1.
  2: { by destruct ps. }
  assert (timers w1 = []) as Ht1.
  { destruct ps; simpl in E1; injection E1 as <- _; done. }
  unfold bind at 1. destruct (default_object meta w1) as [w2 [meta1|e]] eqn:E2.
  2: { by destruct meta. }
  assert (timers w2 = []) as Ht2.
  { destruct meta; simpl in E2; injection E2 as <- _; done. }
  unfold bind at 1. simpl. unfold bind at 1. simpl.
  match goal with |- idle (fst (?m ?u)) => enough (hoare idle m idle) as H end.
  { apply H. by repeat split. }
  eapply hoare_bind; [| |done].
  - destruct (truthy init); [|apply hoare_ret].
    apply (hoare_bind idle idle); [| |done].
    + eapply hoare_bind; [apply Hget|apply Hdata|done].
    + intros _. eapply hoare_bind; [|intros; apply hoare_ret|done].
      eapply hoare_bind; [apply Hget|apply Hmeta|done].
  - intros _. apply hoare_ret.
Qed.

Lemma new_API_idle route init ps meta :
  idle (new_API route init ps meta (VBool false)).
Proof. by apply constructor_idle. Qed.

(** ** Keys of the parameter bag are kept *)

Lemma keeps_refl p w : keeps p w w.
Proof.
  intros m Hp Hm. split; [done|]. exists m, []. by rewrite app_nil_r.
Qed.

Lemma keeps_trans p w1 w2 w3 : keeps p w1 w2 → keeps p w2 w3 → keeps p w1 w3.
Proof.
  intros H12 H23 m Hp Hm.
  destruct (H12 m Hp Hm) as (Hp2 & m2 & new2 & Hm2 & Hd2 & Hs2 & Hn2).
  destruct (H23 m2 Hp2 Hm2) as (Hp3 & m3 & new3 & Hm3 & Hd3 & Hs3 & Hn3).
  split; [done|]. exists m3, (new2 ++ new3). repeat split; try done.
  - set_solver.
  - by rewrite Hs3, Hs2, <- app_assoc.
  - apply Forall_app. split; [done|].
    eapply Forall_impl; [done|]. simpl. set_solver.
Qed.

Lemma keeps_heap p w w' :
  _params (this w') = _params (this w) → sent w' = sent w →
  (∀ l o, heap w !! l = Some o → heap w' !! l = Some o) →
  keeps p w w'.
Proof.
  intros Ht Hs Hh m Hp Hm. rewrite Ht. split; [done|].
  exists m, []. rewrite app_nil_r. auto.
Qed.

Lemma keeps_settle p i o w : keeps p w (settle i o w).
Proof.
  destruct (settle_frame i o w) as (Hh & Hp & _ & _ & _ & _ & _ & _ & _ & _ & Hs).
  intros m Hpw Hm. split; [congruence|]. exists m, [].
  rewrite app_nil_r. auto.
Qed.

Lemma keeps_tick p dt w : keeps p w (tick dt w).
Proof.
  destruct (tick_frame dt w) as (Hh & Ht & _ & _ & (new & Hs & Hnew) & _).
  intros m Hp Hm. rewrite Ht, Hh. split; [done|]. exists m, new.
  repeat split; try done.
  eapply Forall_impl; [done|]. simpl. intros rq ->.
  rewrite Hp. simpl. by rewrite Hm.
Qed.

Lemma keeps_alloc p o w : keeps p w (fst (alloc o w)).
Proof.
  apply keeps_heap; try done. simpl. intros. by apply lookup_fresh.
Qed.

(** The world after a merge into the stored bag, one request sent or
    none. *)
Lemma keeps_merge p w w' n rest :
  _params (this w') = _params (this w) →
  heap w' = heap_assign (heap w) (_params (this w)) n →
  sent w' = sent w ++ rest →
  Forall (λ rq, req_resolved rq = own_props (heap w') (_params (this w'))) rest →
  keeps p w w'.
Proof.
  intros Hp Hh Hs Hr m Hpw Hm. split; [congruence|].
  assert (heap w' !! p = Some (Obj (n ∪ m))) as Hm'.
  { rewrite Hh, Hpw. by apply heap_assign_lookup. }
  exists (n ∪ m), rest. repeat split; try done.
  - rewrite dom_union_L. set_solver.
  - eapply Forall_impl; [done|]. simpl. intros rq ->.
    rewrite Hp, Hpw. simpl. rewrite Hm'. rewrite dom_union_L. set_solver.
Qed.

Lemma keeps_fetched p j ps w : keeps p w (fetched j ps w).
Proof. by eapply (keeps_merge p w _ _ []); [..|constructor]; try rewrite app_nil_r. Qed.

Lemma keeps_written p v ep k ps body w : keeps p w (written v ep k ps body w).
Proof. eapply (keeps_merge p w _ _ [_]); try done. by repeat constructor. Qed.

Lemma keeps_deleted p id cb ps w : keeps p w (deleted id cb ps w).
Proof.
  apply (keeps_trans p w
    (with_heap (heap_assign (heap w) (_params (this w)) (own_props (heap w) ps)) w)).
  - by eapply (keeps_merge p w _ _ []); [..|constructor]; try rewrite app_nil_r.
  - eapply (keeps_merge p _ _ {["id" := id]} [_]); [reflexivity..|].
    by repeat constructor.
Qed.

Lemma keeps_invoke p c w :
  (∀ v, c ≠ m_params v) → keeps p w (fst (invoke c w)).
Proof.
  intros Hc m Hp Hm.
  assert (nullish (_params (this w)) = false) as Hn by by rewrite Hp.
  revert m Hp Hm. change (keeps p w (fst (invoke c w))).
  destruct c as [v|v|v|ps cb|ps cb|ps d cb|ps d cb|id cb ps| | |kw ps|n|cb]; simpl.
  - unfold API.data. destruct (truthy v); by apply keeps_heap.
  - unfold API.meta. destruct (truthy v); by apply keeps_heap.
  - by destruct (Hc v).
  - rewrite get_eq by done. apply keeps_fetched.
  - rewrite show_eq by done. apply keeps_fetched.
  - destruct (decide (d = VUndefined)) as [->|Hd].
    + rewrite post_default by done. simpl.
      eapply keeps_trans; [apply (keeps_alloc p (Obj ∅))|apply keeps_written].
    + rewrite post_eq by done. apply keeps_written.
  - destruct (decide (d = VUndefined)) as [->|Hd].
    + rewrite update_default by done. simpl.
      eapply keeps_trans; [apply (keeps_alloc p (Obj ∅))|apply keeps_written].
    + rewrite update_eq by done. apply keeps_written.
  - rewrite delete_eq by done. apply keeps_deleted.
  - apply keeps_refl.
  - apply keeps_refl.
  - unfold API.query. unfold bind at 1. simpl. unfold bind at 1.
    unfold Object_assign at 1, bind at 1, gets at 1, assign_props at 1. simpl.
    unfold bind at 1. rewrite get_eq by done. simpl.
    set (w1 := with_heap _ (with_heap _ w)).
    apply (keeps_trans p w w1); [|apply keeps_fetched].
    apply keeps_heap; try done. simpl. intros l o Hl.
    rewrite lookup_insert_eq, lookup_insert_ne.
    + by apply lookup_fresh.
    + intros Heq. apply (is_fresh (dom (heap w))). rewrite Heq. by apply elem_of_dom.
  - unfold API.goTo. unfold bind at 1. simpl. unfold bind at 1.
    rewrite get_eq by done. simpl.
    eapply keeps_trans; [apply (keeps_alloc p (Obj {["page" := n]}))|apply keeps_fetched].
  - by apply keeps_heap.
Qed.

Lemma keeps_step p a w : ¬ replaces a → keeps p w (step a w).
Proof.
  destruct a as [c|o|dt|i o]; simpl; intros Hr.
  - apply keeps_invoke. intros v ->. by apply Hr.
  - apply keeps_alloc.
  - apply keeps_tick.
  - apply keeps_settle.
Qed.

Lemma keeps_run p acts w :
  Forall (λ a, ¬ replaces a) acts → keeps p w (run acts w).
Proof.
  intros Hall. revert w. induction Hall as [|a acts Ha _ IH]; intros w.
  - apply keeps_refl.
  - simpl. eapply keeps_trans; [by apply keeps_step|apply IH].
Qed.

(** ** The exception *)

Lemma constructor_eval error w :
  APIException.constructor error w =
    match error_message (heap w) error with
    | Some msg =>
        (with_heap (<[fresh (dom (heap w)) := Exc (mkApiException msg (VStr "APIException"))]> (heap w))
           (with_emitted (emitted w ++ [("error-message"%string, error)])
              (with_console (console w ++ [error]) w)),
         Ok (VRef (fresh (dom (heap w)))))
    | None => (with_console (console w ++ [error]) w, Throw VTypeError)
    end.
Proof.
  unfold APIException.constructor, error_message, get_prop, console_log, emit, alloc,
    bind, gets, modify, ret, throw. simpl.
  destruct (nullish error); [done|]. simpl.
  destruct (nullish (read_prop (heap w) "response" error)); [done|]. simpl.
  destruct (nullish (read_prop (heap w) "data" _)); done.
Qed.

(** C8, as amended: constructing the exception always logs the error. When
    [error], [error.response] and [error.response.data] are neither
    [undefined] nor [null], construction completes: a new instance whose
    [toString()] is [error.response.data.message] ([undefined] when the body
    has no message), and exactly one ["error-message"] event carrying the
    original error. Otherwise construction throws a [TypeError] and nothing
    is emitted. For [{response: {data: {message: "Not found"}}}] the display
    string is ["Not found"] and the one event carries that error. *)
Theorem exception_construction :
  (∀ error w,
     let w' := fst (APIException.constructor error w) in
     console w' = console w ++ [error] ∧
     match error_message (heap w) error with
     | Some msg =>
         ∃ x, snd (APIException.constructor error w) = Ok (VRef x) ∧
              heap w !! x = None ∧
              heap w' !! x = Some (Exc (mkApiException msg (VStr "APIException"))) ∧
              APIException.toString_of (heap w') (VRef x) = Some msg ∧
              emitted w' = emitted w ++ [("error-message"%string, error)]
     | None =>
         snd (APIException.constructor error w) = Throw VTypeError ∧
         emitted w' = emitted w
     end) ∧
  (let error := VRef 6%positive in
   let w' := fst (APIException.constructor error not_found) in
   error_message (heap not_found) error = Some (VStr "Not found") ∧
   snd (APIException.constructor error not_found) = Ok (VRef 7%positive) ∧
   APIException.toString_of (heap w') (VRef 7%positive) = Some (VStr "Not found") ∧
   emitted w' = [("error-message"%string, error)]).
Proof.
  split.
  - intros error w. simpl. rewrite constructor_eval.
    destruct (error_message (heap w) error) as [msg|]; simpl; [|done].
    split; [done|]. exists (fresh (dom (heap w))). repeat split.
    + apply not_elem_of_dom, is_fresh.
    + apply lookup_insert_eq.
    + by rewrite lookup_insert_eq.
  - by vm_compute.
Qed.

(** Against C8 as stated: the error [{response: {data: {}}}] has no
    message, so the nested shape is absent, and yet construction does not
    crash; it builds an instance whose display string is [undefined] and
    emits the event. *)
Lemma exception_without_message_is_built :
  own_props (heap no_message) (VRef 4%positive) !! "message" = None ∧
  error_message (heap no_message) (VRef 6%positive) = Some VUndefined ∧
  snd (APIException.constructor (VRef 6%positive) no_message) = Ok (VRef 7%positive) ∧
  APIException.toString_of
    (heap (fst (APIException.constructor (VRef 6%positive) no_message)))
    (VRef 7%positive) = Some VUndefined ∧
  emitted (fst (APIException.constructor (VRef 6%positive) no_message)) =
    [("error-message"%string, VRef 6%positive)].
Proof. by vm_compute. Qed.

(** C9, as amended: [params(v)] stores every value [v] and hands back the
    instance; [data(v)] and [meta(v)] store [v] and hand back the instance
    for every truthy [v]. *)
Theorem setters_store_and_chain v w :
  (snd (API.params v w) = Ok Self ∧ _params (this (fst (API.params v w))) = v) ∧
  (truthy v = true →
   (snd (API.data v w) = Ok Self ∧ _data (this (fst (API.data v w))) = v) ∧
   (snd (API.meta v w) = Ok Self ∧ _meta (this (fst (API.meta v w))) = v)).
Proof.
  split; [done|]. intros Hv. unfold API.data, API.meta. by rewrite Hv.
Qed.

Lemma setters_store_and_chain_witness :
  truthy (VStr "x") = true ∧
  (snd (API.data (VStr "x") client) = Ok Self ∧
   _data (this (fst (API.data (VStr "x") client))) = VStr "x") ∧
  (snd (API.meta (VStr "x") client) = Ok Self ∧
   _meta (this (fst (API.meta (VStr "x") client))) = VStr "x").
Proof.
  split; [reflexivity|]. apply (setters_store_and_chain (VStr "x") client). reflexivity.
Defined.

(** Against C9 as stated: with the argument [0], [data] stores nothing and
    hands back the stored data instead of the instance; so does [meta] with
    the empty string. *)
Lemma data_with_falsy_argument_reads :
  snd (API.data (VNum 0) client) = Ok (Value (_data (this client))) ∧
  snd (API.data (VNum 0) client) ≠ Ok Self ∧
  _data (this (fst (API.data (VNum 0) client))) ≠ VNum 0 ∧
  snd (API.meta (VStr "") client) = Ok (Value (_meta (this client))) ∧
  _meta (this (fst (API.meta (VStr "") client))) ≠ VStr "".
Proof. vm_compute. by repeat split. Qed.

(** ** Responses *)

Lemma settle_eq i rq o w :
  sent w !! i = Some rq → i ∉ settled w →
  settle i o w =
    job_run (settle_chain (req_chain rq) o) (with_settled (i :: settled w) w).
Proof.
  intros Hi Hs. unfold settle. rewrite Hi. by rewrite bool_decide_eq_false_2.
Qed.

Lemma wf_unsettled w : wf w → length (sent w) ∉ settled w.
Proof.
  intros [_ Hs] Hin. rewrite Forall_forall in Hs. specialize (Hs _ Hin). lia.
Qed.

Lemma notify_callback v r u :
  is_callback v →
  API.notify v r u =
    (with_invoked (invoked u ++ ((λ f, mkInvocation f r (this u)) <$> callbacks v)) u,
     Ok ()).
Proof.
  intros [Hv|[f ->]]; [|done].
  unfold API.notify. rewrite Hv. destruct v; try done.
  all: simpl; rewrite app_nil_r; by destruct u.
Qed.

Lemma store_then_eval cb r u :
  is_callback (_callback (this u)) → is_callback cb →
  API.store_then cb r u =
    (with_invoked
       (invoked u ++
          ((λ f, mkInvocation f r (set_saving false (this u))) <$>
             (callbacks (_callback (this u)) ++ callbacks cb)))
       (with_this (set_saving false (this u)) u), Ok ()).
Proof.
  intros Hreg Hcb. unfold API.store_then, API.field, assign_this, bind, gets, modify.
  simpl. rewrite (notify_callback (_callback (this u))) by done. simpl.
  rewrite (notify_callback cb) by done. simpl.
  by rewrite fmap_app, app_assoc.
Qed.

Lemma post_world ps d cb w :
  nullish (_params (this w)) = false →
  ∃ w0 body,
    API.post ps d cb w = (written POST store (KStore cb) ps body w0, Ok Self) ∧
    stable w w0 ∧ this w0 = this w ∧ console w0 = console w ∧
    emitted w0 = emitted w ∧ invoked w0 = invoked w ∧ unhandled w0 = unhandled w.
Proof.
  intros Hn. destruct (decide (d = VUndefined)) as [->|Hd].
  - exists (fst (alloc (Obj ∅) w)), (VRef (fresh (dom (heap w)))).
    rewrite post_default by done. repeat split; try done. apply quiet_alloc.
  - exists w, d. rewrite post_eq by done. repeat split; try done.
Qed.

Lemma written_sent v ep k ps body w0 :
  sent (written v ep k ps body w0) !! length (sent w0) =
    Some (mkRequest v (_route (this w0) +:+ ep (_endpoints (this w0)))
            (_params (this w0))
            (own_props (heap (written v ep k ps body w0)) (_params (this w0))) body k).
Proof. simpl. by apply list_lookup_middle. Qed.

(** C7, as amended: on a client whose stored parameters are a plain object,
    a create whose response is a success clears [saving], and then invokes
    the registered callback and the callback of the call, in that order,
    each if it is truthy, each with the response and each finding [saving]
    already cleared; what is truthy among the two is a function. *)
Theorem create_success w p m ps d cb r :
  wf w → _params (this w) = VRef p → heap w !! p = Some (Obj m) →
  is_callback (_callback (this w)) → is_callback cb →
  let w1 := fst (API.post ps d cb w) in
  let w2 := settle (length (sent w)) (Fulfilled r) w1 in
  _saving (this w1) = true ∧ _saving (this w2) = false ∧
  ∃ seen, _saving seen = false ∧
    invoked w2 =
      invoked w ++ ((λ f, mkInvocation f r seen) <$>
                      (callbacks (_callback (this w)) ++ callbacks cb)).
Proof.
  intros Hwf Hp Hm Hreg Hcb.
  assert (nullish (_params (this w)) = false) as Hn by (by rewrite Hp).
  destruct (post_world ps d cb w Hn) as (w0 & body & -> & Hst & Hthis & _ & _ & Hinv & _).
  simpl fst. intros w1 w2. split; [done|].
  assert (sent w1 !! length (sent w) = Some
            (mkRequest POST (_route (this w0) +:+ store (_endpoints (this w0)))
               (_params (this w0)) (own_props (heap w1) (_params (this w0))) body (KStore cb)))
    as Hrq.
  { rewrite <- (st_sent _ _ Hst). apply written_sent. }
  assert (length (sent w) ∉ settled w1) as Hfresh.
  { simpl. rewrite (st_settled _ _ Hst). by apply wf_unsettled. }
  subst w2. rewrite (settle_eq _ _ _ _ Hrq Hfresh). simpl.
  unfold job_run, catch. rewrite store_then_eval; simpl; rewrite ?Hthis; try done.
  split; [done|]. eexists. split; [|by rewrite Hinv]. done.
Qed.

(** C3, as amended: on a client whose stored parameters are a plain object,
    when a create fails, [saving] stays set, the error is logged once and
    no callback is invoked. If [e.response.data] can be
    read, exactly one [ApiException] is raised, with the message of the
    body, and the error is emitted once on the bus; if [e], [e.response] or
    [e.response.data] is [undefined] or [null], what is raised is a
    [TypeError] and nothing is emitted. *)
Theorem create_failure w p m ps d cb e :
  wf w → _params (this w) = VRef p → heap w !! p = Some (Obj m) →
  let w1 := fst (API.post ps d cb w) in
  let w2 := settle (length (sent w)) (Rejected e) w1 in
  _saving (this w1) = true ∧ _saving (this w2) = true ∧
  console w2 = console w ++ [e] ∧ invoked w2 = invoked w ∧
  match error_message (heap w1) e with
  | Some msg =>
      ∃ x, unhandled w2 = unhandled w ++ [VRef x] ∧
           heap w1 !! x = None ∧
           heap w2 !! x = Some (Exc (mkApiException msg (VStr "APIException"))) ∧
           emitted w2 = emitted w ++ [("error-message"%string, e)]
  | None =>
      unhandled w2 = unhandled w ++ [VTypeError] ∧ emitted w2 = emitted w
  end.
Proof.
  intros Hwf Hp Hm.
  assert (nullish (_params (this w)) = false) as Hn by (by rewrite Hp).
  destruct (post_world ps d cb w Hn) as (w0 & body & -> & Hst & Hthis & Hc & He & Hi & Hu).
  simpl fst. intros w1 w2. split; [done|].
  assert (sent w1 !! length (sent w) = Some
            (mkRequest POST (_route (this w0) +:+ store (_endpoints (this w0)))
               (_params (this w0)) (own_props (heap w1) (_params (this w0))) body (KStore cb)))
    as Hrq.
  { rewrite <- (st_sent _ _ Hst). apply written_sent. }
  assert (length (sent w) ∉ settled w1) as Hfresh.
  { simpl. rewrite (st_settled _ _ Hst). by apply wf_unsettled. }
  subst w2. rewrite (settle_eq _ _ _ _ Hrq Hfresh). simpl.
  unfold job_run, catch, throw, API.store_catch, bind. rewrite constructor_eval. simpl.
  destruct (error_message _ e) as [msg|]; simpl; rewrite ?Hc, ?He, ?Hi, ?Hu.
  - repeat split; try done. exists (fresh (dom (heap w1))). repeat split.
    + apply not_elem_of_dom, is_fresh.
    + apply lookup_insert_eq.
  - done.
Qed.

Lemma create_failure_witness :
  wf not_found ∧ _params (this not_found) = VRef 1%positive ∧
  heap not_found !! 1%positive = Some (Obj ∅) ∧
  _saving (this (settle (length (sent not_found)) (Rejected (VRef 6%positive))
                   (fst (API.post VUndefined VUndefined VNull not_found)))) = true ∧
  console (settle (length (sent not_found)) (Rejected (VRef 6%positive))
             (fst (API.post VUndefined VUndefined VNull not_found)))
    = console not_found ++ [VRef 6%positive].
Proof.
  assert (wf not_found) as Hwf by (split; vm_compute; constructor).
  assert (heap not_found !! 1%positive = Some (Obj ∅)) as Hm by by vm_compute.
  split; [exact Hwf|]. split; [reflexivity|]. split; [exact Hm|].
  destruct (create_failure not_found 1%positive ∅ VUndefined VUndefined VNull
              (VRef 6%positive) Hwf eq_refl Hm) as (_ & H2 & H3 & _).
  split; [exact H2|exact H3].
Defined.

(** Against C3 as stated: a create that fails without a response (the
    server was not reached) is logged, but nothing is emitted on the bus and
    what is raised is a [TypeError], not an [ApiException]. *)
Lemma create_failure_without_response :
  _saving (this (settle 0 (Rejected (VRef 4%positive))
                   (fst (API.post VUndefined VUndefined VNull network_error)))) = true ∧
  console (settle 0 (Rejected (VRef 4%positive))
             (fst (API.post VUndefined VUndefined VNull network_error)))
    = [VRef 4%positive] ∧
  emitted (settle 0 (Rejected (VRef 4%positive))
             (fst (API.post VUndefined VUndefined VNull network_error))) = [] ∧
  unhandled (settle 0 (Rejected (VRef 4%positive))
               (fst (API.post VUndefined VUndefined VNull network_error)))
    = [VTypeError].
Proof. by vm_compute. Qed.

(** ** A fetch, its timer and its response *)

Lemma fetch_fires j ps dt w :
  cancel (_debouncing (this w)) (timers w) = [] → debounce_delay (this w) ≤ dt →
  tick dt (fetched j ps w) =
    with_sent
      (sent w ++
         [mkRequest GET
            (_route (this w) +:+ match j with
                                 | TIndex _ => index (_endpoints (this w))
                                 | TShow _ => show_ (_endpoints (this w))
                                 end)
            (_params (this w))
            (own_props (heap (fetched j ps w)) (_params (this w))) VUndefined
            match j with TIndex cb => KIndex cb | TShow cb => KShow cb end])
      (with_timers [] (with_now (now w + Z.max 0 dt) (fetched j ps w))).
Proof.
  intros Hc Hd.
  rewrite (tick_single dt _ (scheduled j w)); simpl; rewrite ?Hc; [|done|lia].
  rewrite fire_pending; simpl; rewrite ?Hc; simpl.
  - rewrite filter_cons_False by (simpl; intros Hne; by apply Hne). done.
  - unfold pending. simpl. rewrite Hc. simpl. apply list_elem_of_here.
Qed.

Lemma notify_this cb r u : this (fst (API.notify cb r u)) = this u.
Proof. unfold API.notify. destruct (truthy cb); [|done]. by destruct cb. Qed.

Lemma job_run_this m u : this (job_run m u) = this (fst (m u)).
Proof. unfold job_run. by destruct (m u) as [u' [|e]]. Qed.

Lemma fetch_then_loading k r u :
  (∃ cb, k = KIndex cb ∨ k = KShow cb) →
  nullish r = false → nullish (read_prop (heap u) "data" r) = false →
  _loading (this (job_run (settle_chain k (Fulfilled r)) u)) = false.
Proof.
  intros (cb & [-> | ->]) Hr Hb; rewrite job_run_this; simpl;
    unfold API.index_then, API.show_then, get_prop, assign_this, bind, gets, modify;
    simpl; rewrite !Hr; simpl; rewrite ?Hb; simpl; rewrite ?Hb; simpl;
    match goal with |- context [API.notify ?c ?r ?u] =>
      pose proof (notify_this c r u) as Hn; destruct (API.notify c r u) as [u' [|e]]
    end; simpl in *; by rewrite Hn.
Qed.

(** C2, as amended: [loading] is clear on a new client that does not load
    by itself; after a single [get] or [show] on a client whose stored
    parameters are a plain object it is set from the call on, through any
    passing of time; it is cleared when the response is a success whose
    body can be read, and it stays set when the response is a failure. *)
Theorem loading_window w p m ps cb c dt r :
  wf w → _params (this w) = VRef p → heap w !! p = Some (Obj m) →
  c = m_get ps cb ∨ c = m_show ps cb →
  debounce_delay (this w) ≤ dt →
  let w1 := fst (invoke c w) in
  let w2 := tick dt w1 in
  let w3 := settle (length (sent w)) (Fulfilled r) w2 in
  nullish r = false → nullish (read_prop (heap w2) "data" r) = false →
  (∀ route init ps0 meta,
     _loading (this (new_API route init ps0 meta (VBool false))) = false) ∧
  _loading (this w1) = true ∧
  (∀ dt', _loading (this (tick dt' w1)) = true) ∧
  length (sent w2) = S (length (sent w)) ∧
  _loading (this w3) = false ∧
  (∀ e, _loading (this (settle (length (sent w)) (Rejected e) w2)) = true).
Proof.
  intros Hwf Hp Hm Hc Hd.
  assert (nullish (_params (this w)) = false) as Hn by (by rewrite Hp).
  assert (∃ j, fst (invoke c w) = fetched j ps w ∧
               (j = TIndex cb ∨ j = TShow cb)) as (j & -> & Hj).
  { destruct Hc as [-> | ->]; simpl.
    - exists (TIndex cb). rewrite get_eq by done. eauto.
    - exists (TShow cb). rewrite show_eq by done. eauto. }
  intros w1 w2 w3 Hr Hb. split; [intros; apply new_API_idle|]. split; [done|]. split.
  { intros dt'. by destruct (tick_frame dt' w1) as (_ & -> & _). }
  assert (cancel (_debouncing (this w)) (timers w) = []) as Hcancel
    by (apply cancel_wf; apply Hwf).
  subst w3 w2 w1. revert Hb. rewrite (fetch_fires j ps dt w Hcancel Hd).
  set (rq := mkRequest _ _ _ _ _ _). intros Hb. simpl.
  split; [rewrite length_app; simpl; lia|].
  split.
  - erewrite (settle_eq _ rq).
    + apply fetch_then_loading; [|done..].
      destruct Hj as [-> | ->]; simpl; eauto.
    + simpl. by apply list_lookup_middle.
    + simpl. by apply wf_unsettled.
  - intros e. erewrite (settle_eq _ rq).
    + by destruct Hj as [-> | ->].
    + simpl. by apply list_lookup_middle.
    + simpl. by apply wf_unsettled.
Qed.

(** C1, as amended: a [get] or a [show], on a client whose stored
    parameters are a plain object, schedules one timer; its delay is 0
    when the instance holds no timer handle, as a new client that does not
    load by itself does, and the configured duration when it holds one,
    whether that timer is still pending or not. From then on the instance
    holds a handle for good, and the duration stays what it was: the 1000 ms
    the constructor sets. *)
Theorem fetch_delay w p m ps cb c :
  _params (this w) = VRef p → heap w !! p = Some (Obj m) →
  c = m_get ps cb ∨ c = m_show ps cb →
  let w1 := fst (invoke c w) in
  (∃ t, timers w1 = cancel (_debouncing (this w)) (timers w) ++ [t] ∧
        handle t = next_handle w ∧ _debouncing (this w1) = Some (handle t) ∧
        job t = (match c with m_show _ _ => TShow cb | _ => TIndex cb end) ∧
        delay t = (match _debouncing (this w) with
                   | Some _ => _debounce (this w)
                   | None => 0
                   end) ∧
        due t = now w + Z.max 0 (delay t)) ∧
  (∀ acts, is_Some (_debouncing (this (run acts w1))) ∧
           _debounce (this (run acts w1)) = _debounce (this w)) ∧
  (∀ route init ps0 meta autoload acts,
     _debounce (this (run acts (new_API route init ps0 meta autoload))) = 1000) ∧
  (∀ route init ps0 meta,
     _debouncing (this (new_API route init ps0 meta (VBool false))) = None).
Proof.
  intros Hp Hm Hc w1.
  assert (nullish (_params (this w)) = false) as Hn by (by rewrite Hp).
  split; [|split; [|split]]; [| | |intros; apply new_API_idle].
  - destruct Hc as [-> | ->]; subst w1; simpl;
      [rewrite get_eq by done|rewrite show_eq by done]; eexists; by repeat split.
  - intros acts. destruct (run_settings acts w1) as [Hs Hd].
    assert (settings (this w1) = settings (this w)) as Hs1
      by (subst w1; apply invoke_settings).
    split.
    + apply Hd. subst w1. destruct Hc as [-> | ->]; simpl;
        [rewrite get_eq by done|rewrite show_eq by done]; by eexists.
    + rewrite Hs1 in Hs. unfold settings in Hs. congruence.
  - intros. destruct (run_settings acts (new_API route init ps0 meta autoload)) as [Hs _].
    rewrite new_API_settings in Hs. unfold settings in Hs. congruence.
Qed.

(** Against C1 as stated: the timer of the first fetch has fired and none
    is pending, and yet the next fetch is scheduled with the full delay. *)
Lemma second_fetch_waits :
  timers (run [Call (m_get VUndefined VNull); Tick 0] client) = [] ∧
  length (sent (run [Call (m_get VUndefined VNull); Tick 0] client)) = 1%nat ∧
  delay <$> timers (run [Call (m_get VUndefined VNull); Tick 0;
                         Call (m_get VUndefined VNull)] client) = [1000].
Proof. by vm_compute. Qed.

(** ** Deleting *)

Lemma heap_assign_arr h t n a xs :
  h !! a = Some (Arr xs) → heap_assign h t n !! a = Some (Arr xs).
Proof.
  intros Ha. destruct (decide (t = VRef a)) as [->|Hne].
  - simpl. by rewrite Ha.
  - by rewrite heap_assign_other.
Qed.

Lemma bind_ok {A B} (m : M A) (k : A → M B) w w' a :
  m w = (w', Ok a) → bind m k w = k a w'.
Proof. intros H. unfold bind. by rewrite H. Qed.

Lemma filterM_id_eval id xs u :
  Forall (λ d, nullish d = false) xs →
  filterM (λ d, let! x := get_prop "id" d in ret (strict_ne x id)) xs u =
    (u, Ok (filter (λ d, read_prop (heap u) "id" d ≠ id) xs)).
Proof.
  induction 1 as [|d xs Hd _ IH]; [done|].
  cbn [filterM].
  erewrite bind_ok; [|unfold get_prop; rewrite Hd; reflexivity].
  erewrite bind_ok by exact IH.
  unfold ret, strict_ne, strict_eq. case_bool_decide; simpl.
  - by rewrite filter_cons_False by (intros Hne; by apply Hne).
  - by rewrite filter_cons_True.
Qed.

Lemma data_read u : API.data VNull u = (u, Ok (Value (_data (this u)))).
Proof. reflexivity. Qed.

Lemma destroy_then_data id cb r u a xs :
  _data (this u) = VRef a → heap u !! a = Some (Arr xs) →
  Forall (λ d, nullish d = false) xs →
  let u' := job_run (API.destroy_then id cb r) u in
  _data (this u') = VRef (fresh (dom (heap u))) ∧
  heap u' !! fresh (dom (heap u)) =
    Some (Arr (filter (λ d, read_prop (heap u) "id" d ≠ id) xs)).
Proof.
  intros Hd Ha Hxs.
  destruct (stable_job_run (API.destroy_then id cb r) u (quiet_destroy_then id cb r))
    as [Hheap _ _ _ _ _ _ _ _ _ _ _].
  simpl. rewrite job_run_this.
  assert (∃ u1, API.destroy_then id cb r u = API.notify cb r u1 ∧
                _data (this u1) = VRef (fresh (dom (heap u))) ∧
                heap u1 !! fresh (dom (heap u)) =
                  Some (Arr (filter (λ d, read_prop (heap u) "id" d ≠ id) xs)))
    as (u1 & Heq & Hd1 & Hh1).
  { unfold API.destroy_then.
    eexists. split.
    - erewrite bind_ok; cycle 1.
      { rewrite (bind_ok _ _ _ _ _ (data_read u)). cbv beta iota. rewrite Hd.
        erewrite bind_ok; cycle 1.
        { unfold array_filter.
          erewrite bind_ok; [|unfold gets; rewrite Ha; reflexivity].
          cbv beta iota.
          erewrite bind_ok by (by apply filterM_id_eval).
          erewrite bind_ok by reflexivity. reflexivity. }
        reflexivity. }
      reflexivity.
    - simpl. split; [done|]. apply lookup_insert_eq. }
  split.
  - rewrite Heq, notify_this. done.
  - revert Hheap. unfold job_run. rewrite Heq.
    destruct (stable_job_run (API.notify cb r) u1 (quiet_notify cb r)) as [Hh _ _ _ _ _ _ _ _ _ _ _].
    unfold job_run in Hh. intros _. destruct (API.notify cb r u1) as [u2 [|e]]; simpl in *; auto.
Qed.


(** ** Merging parameters *)

Lemma update_world ps d cb w :
  nullish (_params (this w)) = false →
  ∃ w0 body,
    API.update ps d cb w = (written PUT update_ (KUpdate cb) ps body w0, Ok Self) ∧
    stable w w0 ∧ this w0 = this w.
Proof.
  intros Hn. destruct (decide (d = VUndefined)) as [->|Hd].
  - exists (fst (alloc (Obj ∅) w)), (VRef (fresh (dom (heap w)))).
    rewrite update_default by done. repeat split; try done. apply quiet_alloc.
  - exists w, d. rewrite update_eq by done. repeat split; try done.
Qed.

(** A merging call, with the heap it finds agreeing with [h0] outside [p]. *)
Lemma merge_step h0 p c w m :
  _params (this w) = VRef p → heap w !! p = Some (Obj m) →
  (∀ l, l ∈ dom h0 → l ≠ p → heap w !! l = h0 !! l) →
  mergeable h0 p c →
  ∃ v, merged_by c = Some v ∧
    _params (this (fst (invoke c w))) = VRef p ∧
    heap (fst (invoke c w)) !! p = Some (Obj (own_props h0 v ∪ m)) ∧
    (∀ l, l ∈ dom h0 → l ≠ p → heap (fst (invoke c w)) !! l = h0 !! l).
Proof.
  intros Hp Hm Hagree (v & Hv & Hne & Hlive). exists v. split; [done|].
  assert (nullish (_params (this w)) = false) as Hn by by rewrite Hp.
  assert (∀ w0, stable w w0 → own_props (heap w0) v = own_props h0 v) as Hown.
  { intros w0 Hst. destruct v as [| | | | |l| |]; try done. simpl.
    assert (l ≠ p) by congruence.
    specialize (Hlive l eq_refl). pose proof Hlive as Hl.
    apply elem_of_dom in Hl as [o Ho].
    rewrite (st_heap _ _ Hst l o); [by rewrite Ho|].
    rewrite Hagree by done. done. }
  assert (∀ w0 n, stable w w0 →
            _params (this w0) = VRef p ∧
            heap_assign (heap w0) (_params (this w0)) n !! p = Some (Obj (n ∪ m)) ∧
            (∀ l, l ∈ dom h0 → l ≠ p →
               heap_assign (heap w0) (_params (this w0)) n !! l = h0 !! l)) as Hstep.
  { intros w0 n Hst. rewrite (st_params _ _ Hst), Hp. split; [done|]. split.
    - apply heap_assign_lookup. by apply (st_heap _ _ Hst).
    - intros l Hl Hlp. rewrite heap_assign_other by congruence.
      pose proof Hl as Hl'. apply elem_of_dom in Hl' as [o Ho].
      rewrite (st_heap _ _ Hst l o); [done|]. by rewrite Hagree. }
  destruct c; simpl in Hv; simplify_eq; simpl.
  - rewrite get_eq by done. simpl.
    rewrite <- (Hown w (stable_refl w)). apply (Hstep w _ (stable_refl w)).
  - rewrite show_eq by done. simpl.
    rewrite <- (Hown w (stable_refl w)). apply (Hstep w _ (stable_refl w)).
  - destruct (post_world v data callback w Hn) as (w0 & body & -> & Hst & Ht & _).
    simpl. rewrite <- (Hown w0 Hst). rewrite Ht at 1. rewrite <- Ht.
    apply (Hstep w0 _ Hst).
  - destruct (update_world v data callback w Hn) as (w0 & body & -> & Hst & Ht).
    simpl. rewrite <- (Hown w0 Hst). rewrite Ht at 1. rewrite <- Ht.
    apply (Hstep w0 _ Hst).
Qed.

Lemma merges_from h0 p calls : ∀ w m,
  _params (this w) = VRef p → heap w !! p = Some (Obj m) →
  (∀ l, l ∈ dom h0 → l ≠ p → heap w !! l = h0 !! l) →
  Forall (mergeable h0 p) calls →
  _params (this (run (Call <$> calls) w)) = VRef p ∧
  heap (run (Call <$> calls) w) !! p =
    Some (Obj (shallow_union m (merged_maps h0 calls))).
Proof.
  induction calls as [|c calls IH]; intros w m Hp Hm Hagree Hall; [done|].
  apply Forall_cons in Hall as [Hc Hall].
  destruct (merge_step h0 p c w m Hp Hm Hagree Hc) as (v & Hv & Hp' & Hm' & Hagree').
  simpl. unfold merged_maps. simpl. rewrite Hv. simpl.
  by apply IH.
Qed.

(** C5: after a sequence of merging calls ([get], [show], [post],
    [update]), the stored parameters are still the same object, and its
    content is the shallow union of the initial content with the maps of
    the calls, in call order, the later over the earlier. *)
Theorem merges_accumulate w p m0 calls :
  _params (this w) = VRef p → heap w !! p = Some (Obj m0) →
  Forall (mergeable (heap w) p) calls →
  let w' := run (Call <$> calls) w in
  _params (this w') = VRef p ∧
  heap w' !! p = Some (Obj (shallow_union m0 (merged_maps (heap w) calls))).
Proof.
  intros Hp Hm Hall. by apply merges_from.
Qed.

(** C10, as amended: [delete(id, callback, params)] merges [params] and
    then [{id: id}] into the stored parameters. As long as the stored
    parameters are not replaced wholesale by [params(...)], they keep an
    [id] key, and the delete request and every later request resolve their
    route with an [id] parameter. *)
Theorem delete_leaves_id w p m id cb ps acts :
  _params (this w) = VRef p → heap w !! p = Some (Obj m) →
  Forall (λ a, ¬ replaces a) acts →
  let w1 := fst (API.delete id cb ps w) in
  let w2 := run acts w1 in
  (_params (this w1) = VRef p ∧
   heap w1 !! p = Some (Obj ({[ "id" := id ]} ∪ (own_props (heap w) ps ∪ m)))) ∧
  (∃ m2, _params (this w2) = VRef p ∧ heap w2 !! p = Some (Obj m2) ∧
         is_Some (m2 !! "id")) ∧
  Forall (λ rq, is_Some (req_resolved rq !! "id")) (drop (length (sent w)) (sent w2)).
Proof.
  intros Hp Hm Hacts.
  assert (nullish (_params (this w)) = false) as Hn by by rewrite Hp.
  rewrite delete_eq by done. simpl fst. intros w1 w2.
  set (m1 := {[ "id" := id ]} ∪ (own_props (heap w) ps ∪ m)).
  assert (heap w1 !! p = Some (Obj m1)) as Hm1.
  { simpl. rewrite Hp. apply heap_assign_lookup. by apply heap_assign_lookup. }
  assert ("id" ∈ dom m1) as Hid.
  { unfold m1. rewrite dom_union_L, dom_singleton_L. set_solver. }
  split; [done|].
  destruct (keeps_run p acts w1 Hacts m1 Hp Hm1) as (Hp2 & m2 & new & Hm2 & Hd & Hs & Hnew).
  split.
  - exists m2. repeat split; try done. apply elem_of_dom. by apply Hd.
  - fold w2 in Hs. rewrite Hs. simpl. rewrite <- app_assoc.
    rewrite drop_app_length. constructor.
    + change (is_Some (own_props (heap w1) (_params (this w)) !! "id")).
      rewrite Hp. cbn [own_props]. rewrite Hm1. by apply elem_of_dom.
    + eapply Forall_impl; [done|]. simpl. intros rq Hrq. apply elem_of_dom. by apply Hrq.
Qed.

(** Against C10 as stated: once [params({})] has replaced the stored
    parameters, the next fetch is sent without [id]. *)
Lemma replaced_parameters_forget_id :
  (λ rq, (req_verb rq, bool_decide (is_Some (req_resolved rq !! "id")))) <$>
    sent (run [Call (m_delete (VNum 5) VNull VUndefined);
               New (Obj ∅);
               Call (m_params (VRef 4%positive));
               Call (m_get VUndefined VNull);
               Tick 1000] client)
  = [(DELETE, true); (GET, false)].
Proof. by vm_compute. Qed.

(** ** Coalescing *)

Lemma timers_no_call between : ∀ u,
  Forall no_call between → timers (run between u) ⊆ timers u.
Proof.
  induction between as [|a between IH]; intros u Hall; [done|].
  apply Forall_cons in Hall as [Ha Hall]. simpl.
  etrans; [by apply IH|].
  destruct a as [c|o|dt|i o]; simpl; try done.
  - by destruct (tick_frame dt u) as (_ & _ & _ & _ & _ & ?).
  - by destruct (settle_frame i o u) as (_ & _ & _ & _ & _ & _ & _ & _ & -> & _).
Qed.

(** While its timer is pending, nothing but the clock and the handlers'
    fields has moved. *)
Lemma between_pending between : ∀ u t,
  Forall no_call between → timers u = [t] →
  pending (handle t) (run between u) →
  timers (run between u) = [t] ∧ sent (run between u) = sent u ∧
  _debouncing (this (run between u)) = _debouncing (this u) ∧
  _params (this (run between u)) = _params (this u) ∧
  settings (this (run between u)) = settings (this u).
Proof.
  induction between as [|a between IH]; intros u t Hall Ht Hpend.
  { by repeat split. }
  apply Forall_cons in Hall as [Ha Hall]. simpl in *.
  assert (timers (step a u) = [t] ∧ sent (step a u) = sent u ∧
          _debouncing (this (step a u)) = _debouncing (this u) ∧
          _params (this (step a u)) = _params (this u) ∧
          settings (this (step a u)) = settings (this u))
    as (Ht' & Hs' & Hd' & Hp' & Hg').
  { destruct a as [c|o|dt|i o]; simpl in *; try done.
    - destruct (decide (due t ≤ now u + Z.max 0 dt)) as [Hdue|Hdue].
      + exfalso. pose proof (timers_no_call between (tick dt u) Hall) as Hsub.
        assert (timers (tick dt u) = []) as Hfired.
        { rewrite (tick_single dt u t Ht Hdue).
          rewrite fire_pending
            by (unfold pending; simpl; rewrite Ht; simpl; apply list_elem_of_here).
          simpl. rewrite Ht.
          by rewrite filter_cons_False by (simpl; intros Hne; by apply Hne). }
        rewrite Hfired in Hsub.
        unfold pending in Hpend. apply list_elem_of_fmap in Hpend as (t' & _ & Hin).
        apply Hsub in Hin. by apply not_elem_of_nil in Hin.
      + rewrite tick_idle; [by repeat split|].
        rewrite Ht. constructor; [lia|constructor].
    - destruct (settle_frame i o u) as (_ & Hp & Hr & He & Hd & Hg & _ & _ & Htm & _ & Hs).
      repeat split; try congruence. unfold settings. congruence. }
  destruct (IH (step a u) t Hall Ht' Hpend) as (? & ? & ? & ? & ?).
  repeat split; congruence.
Qed.

(** On a client that has fetched before, a fetch stays pending for as long
    as less than the debounce duration has passed. *)
Lemma pending_within w ps cb gap :
  wf w → nullish (_params (this w)) = false →
  is_Some (_debouncing (this w)) → Z.max 0 gap < _debounce (this w) →
  pending (next_handle w) (run [Tick gap] (fst (API.get ps cb w))).
Proof.
  intros Hwf Hn [h Hh] Hgap. rewrite get_eq by done. simpl.
  rewrite tick_idle.
  - unfold pending. simpl. rewrite cancel_wf by apply Hwf. simpl.
    apply list_elem_of_here.
  - simpl. rewrite cancel_wf by apply Hwf. simpl.
    constructor; [|constructor]. simpl. unfold debounce_delay. rewrite Hh. lia.
Qed.

(** C6, as amended: on a client whose stored parameters are a plain
    object, when a second [get] is issued while the timer of the first is
    still pending, nothing is sent before the debounce duration has
    passed, and then exactly one request is sent, for the index route, with
    the stored parameters as they are when the second call returns and with
    the callback of the second call; no timer is left. *)
Theorem fetches_coalesce w p m ps1 cb1 between ps2 cb2 dt :
  wf w → _params (this w) = VRef p → heap w !! p = Some (Obj m) →
  Forall no_call between →
  let w1 := fst (API.get ps1 cb1 w) in
  let w1' := run between w1 in
  let w2 := fst (API.get ps2 cb2 w1') in
  let w3 := tick dt w2 in
  pending (next_handle w) w1' → _debounce (this w) ≤ dt →
  sent w2 = sent w ∧
  (∀ dt', Z.max 0 dt' < _debounce (this w) → sent (tick dt' w2) = sent w) ∧
  (∃ rq, sent w3 = sent w ++ [rq] ∧
         req_verb rq = GET ∧
         req_route rq = _route (this w) +:+ index (_endpoints (this w)) ∧
         req_chain rq = KIndex cb2 ∧
         req_resolved rq = own_props (heap w2) (_params (this w2))) ∧
  timers w3 = [].
Proof.
  intros Hwf Hp0 Hm0 Hbetween.
  assert (nullish (_params (this w)) = false) as Hn by (by rewrite Hp0).
  rewrite get_eq by done. simpl fst.
  intros w1 w1' w2 w3 Hpend Hdt.
  assert (timers w1 = [scheduled (TIndex cb1) w]) as Ht1.
  { simpl. rewrite cancel_wf by apply Hwf. done. }
  destruct (between_pending between w1 _ Hbetween Ht1 Hpend)
    as (Ht & Hs & Hd & Hp & Hg).
  fold w1' in Ht, Hs, Hd, Hp, Hg. simpl in Hs, Hd, Hp.
  unfold settings in Hg. simpl in Hg. injection Hg as Hroute Hends Hdeb.
  assert (nullish (_params (this w1')) = false) as Hn' by by rewrite Hp.
  assert (cancel (_debouncing (this w1')) (timers w1') = []) as Hcancel.
  { rewrite Hd, Ht. simpl.
    by rewrite filter_cons_False by (simpl; intros Hne; by apply Hne). }
  assert (debounce_delay (this w1') = _debounce (this w)) as Hdelay.
  { unfold debounce_delay. by rewrite Hd. }
  assert (w2 = fetched (TIndex cb2) ps2 w1') as Hw2
    by (unfold w2; by rewrite get_eq).
  split; [by rewrite Hw2|]. split; [|split].
  - intros dt' Hdt'. rewrite Hw2, tick_idle; [done|].
    simpl. rewrite Hcancel. simpl. constructor; [|constructor].
    simpl. rewrite Hdelay. lia.
  - unfold w3. rewrite Hw2, fetch_fires by (done || lia). simpl.
    eexists. split; [by rewrite Hs|].
    repeat split; try done. simpl. congruence.
  - unfold w3. rewrite Hw2, fetch_fires by (done || lia). done.
Qed.

Lemma fetch_delay_witness :
  _params (this fetched_once) = VRef 1%positive ∧
  heap fetched_once !! 1%positive = Some (Obj ∅) ∧
  (m_get VUndefined VNull = m_get VUndefined VNull ∨
   m_get VUndefined VNull = m_show VUndefined VNull) ∧
  timers fetched_once = [] ∧
  ∃ t, timers (fst (invoke (m_get VUndefined VNull) fetched_once)) =
         cancel (_debouncing (this fetched_once)) (timers fetched_once) ++ [t] ∧
       delay t = 1000.
Proof.
  assert (heap fetched_once !! 1%positive = Some (Obj ∅)) as Hm by by vm_compute.
  split; [reflexivity|]. split; [exact Hm|]. split; [by left|]. split; [reflexivity|].
  destruct (fetch_delay fetched_once 1%positive ∅ VUndefined VNull
              (m_get VUndefined VNull) eq_refl Hm (or_introl eq_refl)) as [(t & Ht & _ & _ & _ & Hd & _) _].
  exists t. split; [exact Ht|]. rewrite Hd. reflexivity.
Defined.

Lemma loading_window_witness :
  wf listing ∧ _params (this listing) = VRef 1%positive ∧
  heap listing !! 1%positive = Some (Obj ∅) ∧
  (m_get VUndefined VNull = m_get VUndefined VNull ∨
   m_get VUndefined VNull = m_show VUndefined VNull) ∧
  debounce_delay (this listing) ≤ 0 ∧
  nullish (VRef 8%positive) = false ∧
  nullish (read_prop (heap (tick 0 (fst (invoke (m_get VUndefined VNull) listing))))
             "data" (VRef 8%positive)) = false ∧
  _loading (this listing) = false ∧
  _loading (this (fst (invoke (m_get VUndefined VNull) listing))) = true ∧
  _loading (this (settle (length (sent listing)) (Fulfilled (VRef 8%positive))
                    (tick 0 (fst (invoke (m_get VUndefined VNull) listing))))) = false.
Proof.
  assert (wf listing) as Hwf by (split; vm_compute; constructor).
  assert (heap listing !! 1%positive = Some (Obj ∅)) as Hm by by vm_compute.
  assert (debounce_delay (this listing) ≤ 0) as Hd by (vm_compute; discriminate).
  split; [exact Hwf|]. split; [reflexivity|]. split; [exact Hm|]. split; [by left|].
  split; [exact Hd|]. split; [reflexivity|]. split; [by vm_compute|].
  split; [reflexivity|].
  destruct (loading_window listing 1%positive ∅ VUndefined VNull
              (m_get VUndefined VNull) 0 (VRef 8%positive) Hwf eq_refl Hm
              (or_introl eq_refl) Hd eq_refl)
    as (_ & H1 & _ & _ & H3 & _); [by vm_compute|].
  split; [exact H1|exact H3].
Defined.

(** Against C2 as stated: when the response is a failure, [loading] stays
    set, however long one waits. *)
Lemma rejected_fetch_keeps_loading :
  _loading (this (run [Call (m_get VUndefined VNull); Tick 0;
                       Settle 0 (Rejected (VRef 4%positive))] network_error)) = true ∧
  _loading (this (run [Call (m_get VUndefined VNull); Tick 0;
                       Settle 0 (Rejected (VRef 4%positive)); Tick 60000] network_error)) = true ∧
  _loading (this (run [Call (m_show VUndefined VNull); Tick 0;
                       Settle 0 (Rejected (VRef 4%positive))] network_error)) = true.
Proof. by vm_compute. Qed.



(** Deleting 1 from the records 1 and 2 leaves the record 2. *)
Lemma delete_filters_example :
  heap (settle (length (sent listed)) (Fulfilled VNull)
          (fst (API.delete (VNum 1) VNull VUndefined listed))) !! 9%positive
    = Some (Arr [VRef 5%positive]).
Proof. by vm_compute. Qed.

Lemma merges_accumulate_witness :
  _params (this paging) = VRef 1%positive ∧
  heap paging !! 1%positive = Some (Obj ∅) ∧
  Forall (mergeable (heap paging) 1%positive)
    [m_get (VRef 4%positive) VNull; m_post (VRef 5%positive) VUndefined VNull] ∧
  _params (this (run (Call <$> [m_get (VRef 4%positive) VNull;
                               m_post (VRef 5%positive) VUndefined VNull]) paging))
    = VRef 1%positive ∧
  heap (run (Call <$> [m_get (VRef 4%positive) VNull;
                       m_post (VRef 5%positive) VUndefined VNull]) paging) !! 1%positive
    = Some (Obj (shallow_union ∅
         (merged_maps (heap paging)
            [m_get (VRef 4%positive) VNull; m_post (VRef 5%positive) VUndefined VNull]))).
Proof.
  assert (heap paging !! 1%positive = Some (Obj ∅)) as Hm by by vm_compute.
  assert (Forall (mergeable (heap paging) 1%positive)
            [m_get (VRef 4%positive) VNull; m_post (VRef 5%positive) VUndefined VNull])
    as Hall.
  { repeat constructor.
    - exists (VRef 4%positive). split; [reflexivity|]. split; [discriminate|].
      intros l [= <-]. apply elem_of_dom. eexists. vm_compute. reflexivity.
    - exists (VRef 5%positive). split; [reflexivity|]. split; [discriminate|].
      intros l [= <-]. apply elem_of_dom. eexists. vm_compute. reflexivity. }
  split; [reflexivity|]. split; [exact Hm|]. split; [exact Hall|].
  exact (merges_accumulate paging 1%positive ∅ _ eq_refl Hm Hall).
Defined.

(** The later [page] wins. *)
Lemma merges_accumulate_example :
  shallow_union ∅ (merged_maps (heap paging)
    [m_get (VRef 4%positive) VNull; m_post (VRef 5%positive) VUndefined VNull])
  = {[ "page" := VNum 2; "per_page" := VNum 10 ]}.
Proof. by vm_compute. Qed.

Lemma fetches_coalesce_witness :
  wf fetched_once ∧ _params (this fetched_once) = VRef 1%positive ∧
  heap fetched_once !! 1%positive = Some (Obj ∅) ∧
  Forall no_call [Tick 500] ∧
  pending (next_handle fetched_once)
    (run [Tick 500] (fst (API.get VUndefined VNull fetched_once))) ∧
  _debounce (this fetched_once) ≤ 1000 ∧
  ∃ rq, sent (tick 1000 (fst (API.get VUndefined VNull
                (run [Tick 500] (fst (API.get VUndefined VNull fetched_once))))))
        = sent fetched_once ++ [rq].
Proof.
  assert (wf fetched_once) as Hwf by (split; vm_compute; constructor).
  assert (heap fetched_once !! 1%positive = Some (Obj ∅)) as Hm by by vm_compute.
  assert (Forall no_call [Tick 500]) as Hb by (repeat constructor).
  assert (pending (next_handle fetched_once)
            (run [Tick 500] (fst (API.get VUndefined VNull fetched_once)))) as Hp
    by (vm_compute; apply list_elem_of_here).
  assert (_debounce (this fetched_once) ≤ 1000) as Hd by (vm_compute; discriminate).
  split; [exact Hwf|]. split; [reflexivity|]. split; [exact Hm|]. split; [exact Hb|].
  split; [exact Hp|]. split; [exact Hd|].
  destruct (fetches_coalesce fetched_once 1%positive ∅ VUndefined VNull [Tick 500]
              VUndefined VNull 1000 Hwf eq_refl Hm Hb Hp Hd) as (_ & _ & (rq & Hrq & _) & _).
  exists rq. exact Hrq.
Defined.

(** Against C6 as stated: on a new client two fetches half a second apart,
    within the debounce duration of 1000 ms, are both sent, since the first
    is scheduled with no delay. *)
Lemma first_fetch_is_not_coalesced :
  _debounce (this client) = 1000 ∧
  length (sent (run [Call (m_get VUndefined VNull); Tick 500;
                     Call (m_get VUndefined VNull); Tick 1000] client)) = 2%nat.
Proof. by vm_compute. Qed.

Lemma create_success_witness :
  wf subscribed ∧ _params (this subscribed) = VRef 1%positive ∧
  heap subscribed !! 1%positive = Some (Obj ∅) ∧
  is_callback (_callback (this subscribed)) ∧ is_callback (VFun 2%positive) ∧
  _saving (this (fst (API.post VUndefined VUndefined (VFun 2%positive) subscribed))) = true ∧
  _saving (this (settle (length (sent subscribed)) (Fulfilled VNull)
                   (fst (API.post VUndefined VUndefined (VFun 2%positive) subscribed))))
    = false ∧
  inv_fn <$> invoked (settle (length (sent subscribed)) (Fulfilled VNull)
                        (fst (API.post VUndefined VUndefined (VFun 2%positive) subscribed)))
    = [1%positive; 2%positive].
Proof.
  assert (wf subscribed) as Hwf by (split; vm_compute; constructor).
  assert (heap subscribed !! 1%positive = Some (Obj ∅)) as Hm by by vm_compute.
  assert (is_callback (_callback (this subscribed))) as Hr
    by (right; exists 1%positive; reflexivity).
  assert (is_callback (VFun 2%positive)) as Hc
    by (right; exists 2%positive; reflexivity).
  split; [exact Hwf|]. split; [reflexivity|]. split; [exact Hm|]. split; [exact Hr|]. split; [exact Hc|].
  destruct (create_success subscribed 1%positive ∅ VUndefined VUndefined
              (VFun 2%positive) VNull Hwf eq_refl Hm Hr Hc) as (H1 & H2 & seen & _ & H3).
  split; [exact H1|]. split; [exact H2|]. rewrite H3. reflexivity.
Defined.

(** Against C7 as stated: when what is registered as success callback is
    truthy and no function (a string, here), a successful create clears
    [saving] and then fails on it; the callback of the call, a function, is
    not invoked, and the failure is logged as if the request had failed. *)
Lemma create_success_skips_callback :
  _saving (this (settle 0 (Fulfilled VNull)
                   (fst (API.post VUndefined VUndefined (VFun 2%positive)
                           misregistered)))) = false ∧
  invoked (settle 0 (Fulfilled VNull)
             (fst (API.post VUndefined VUndefined (VFun 2%positive) misregistered)))
    = [] ∧
  console (settle 0 (Fulfilled VNull)
             (fst (API.post VUndefined VUndefined (VFun 2%positive) misregistered)))
    = [VTypeError] ∧
  unhandled (settle 0 (Fulfilled VNull)
               (fst (API.post VUndefined VUndefined (VFun 2%positive) misregistered)))
    = [VTypeError].
Proof. vm_compute. by repeat split. Qed.

Lemma delete_leaves_id_witness :
  _params (this client) = VRef 1%positive ∧
  heap client !! 1%positive = Some (Obj ∅) ∧
  Forall (λ a, ¬ replaces a) [Call (m_get VUndefined VNull); Tick 1000] ∧
  Forall (λ rq, is_Some (req_resolved rq !! "id"))
    (drop (length (sent client))
       (sent (run [Call (m_get VUndefined VNull); Tick 1000]
                (fst (API.delete (VNum 5) VNull VUndefined client))))).
Proof.
  assert (heap client !! 1%positive = Some (Obj ∅)) as Hm by by vm_compute.
  assert (Forall (λ a, ¬ replaces a) [Call (m_get VUndefined VNull); Tick 1000]) as Ha
    by (repeat constructor; intros []).
  split; [reflexivity|]. split; [exact Hm|]. split; [exact Ha|].
  exact (proj2 (proj2 (delete_leaves_id client 1%positive ∅ (VNum 5) VNull VUndefined
                         _ eq_refl Hm Ha))).
Defined.

(** * The rest of the client *)

(** ** The constructor *)

Lemma truthy_not_nullish v : truthy v = true → nullish v = false.
Proof. by destruct v. Qed.

Lemma with_this_same u : with_this (this u) u = u.
Proof. by destruct u. Qed.

Lemma seed_eval init u :
  (if truthy init then
     (let! d := get_prop "data" init in API.data d) ;;
     (let! m := get_prop "meta" init in API.meta m) ;;
     ret ()
   else ret ()) u = (with_this (seed (heap u) init (this u)) u, Ok ()).
Proof.
  unfold seed. destruct (truthy init) eqn:Hi; [|by rewrite with_this_same].
  apply truthy_not_nullish in Hi.
  unfold get_prop, API.data, API.meta, API.field, assign_this, bind, gets, modify, ret.
  rewrite Hi. simpl.
  destruct (truthy (read_prop (heap u) "data" init)); simpl;
    destruct (truthy (read_prop (heap u) "meta" init)); simpl;
    rewrite ?with_this_same; try done; by destruct u.
Qed.

Lemma default_object_eval v w :
  ∃ w0 v1, default_object v w = (w0, Ok v1) ∧ stable w w0 ∧ this w0 = this w ∧
    console w0 = console w ∧ emitted w0 = emitted w ∧ invoked w0 = invoked w ∧
    unhandled w0 = unhandled w ∧
    (v ≠ VUndefined ∧ v1 = v ∧ w0 = w ∨
     v = VUndefined ∧ ∃ l, v1 = VRef l ∧ heap w !! l = None ∧ heap w0 !! l = Some (Obj ∅)).
Proof.
  destruct (decide (v = VUndefined)) as [->|Hv].
  - eexists _, _. split; [reflexivity|]. split; [apply (quiet_alloc (Obj ∅))|].
    repeat split; try done. right. split; [done|].
    exists (fresh (dom (heap w))). split; [done|]. split.
    + apply not_elem_of_dom, is_fresh.
    + simpl. apply lookup_insert_eq.
  - exists w, v. split; [by destruct v|]. split; [apply stable_refl|].
    repeat split; try done. by left.
Qed.

(** The constructor, up to its autoload. *)
Lemma API_constructor_eval route init ps meta autoload w :
  ∃ w0 ps1 meta1 empty,
    stable w w0 ∧
    heap w !! empty = None ∧ heap w0 !! empty = Some (Arr []) ∧
    (ps ≠ VUndefined ∧ ps1 = ps ∨
     ps = VUndefined ∧ ∃ l, ps1 = VRef l ∧ heap w !! l = None ∧ heap w0 !! l = Some (Obj ∅)) ∧
    (meta ≠ VUndefined ∧ meta1 = meta ∨
     meta = VUndefined ∧ ∃ l, meta1 = VRef l ∧ heap w !! l = None ∧ heap w0 !! l = Some (Obj ∅)) ∧
    API.constructor route init ps meta autoload w =
      (if autoloads autoload route
       then API.get VUndefined VUndefined ;; ret ()
       else ret ())
        (with_this (seed (heap w0) init (blank route ps1 meta1 (VRef empty))) w0).
Proof.
  destruct (default_object_eval ps w) as (w1 & ps1 & E1 & S1 & _ & _ & _ & _ & _ & C1).
  destruct (default_object_eval meta w1) as (w2 & meta1 & E2 & S2 & _ & _ & _ & _ & _ & C2).
  set (w3 := fst (alloc (Arr []) w2)).
  assert (stable w2 w3) as S3 by apply (quiet_alloc (Arr [])).
  assert (stable w w3) as S by (eapply stable_trans; [|done]; by eapply stable_trans).
  exists w3, ps1, meta1, (fresh (dom (heap w2))).
  split; [done|]. split.
  { destruct (heap w !! fresh (dom (heap w2))) as [o|] eqn:E; [|done].
    exfalso. apply (is_fresh (dom (heap w2))). apply elem_of_dom. exists o.
    apply (st_heap _ _ S2). by apply (st_heap _ _ S1). }
  split; [apply lookup_insert_eq|]. split.
  { destruct C1 as [(? & ? & _)|(-> & l & -> & Hl & Hl1)]; [by left|right].
    split; [done|]. exists l. repeat split; try done.
    apply (st_heap _ _ S3). by apply (st_heap _ _ S2). }
  split.
  { destruct C2 as [(? & ? & _)|(-> & l & -> & Hl & Hl1)]; [by left|right].
    split; [done|]. exists l. repeat split; try done.
    - destruct (heap w !! l) as [o|] eqn:E; [|done].
      apply (st_heap _ _ S1) in E. congruence.
    - by apply (st_heap _ _ S3). }
  unfold API.constructor.
  rewrite (bind_ok _ _ _ _ _ E1), (bind_ok _ _ _ _ _ E2).
  erewrite bind_ok by reflexivity. erewrite bind_ok by reflexivity.
  erewrite bind_ok by apply seed_eval. reflexivity.
Qed.

Lemma heap_assign_empty h l :
  h !! l = Some (Obj ∅) → own_props (heap_assign h (VRef l) ∅) (VRef l) = ∅.
Proof.
  intros H. simpl. rewrite H, lookup_insert_eq. apply (left_id_L ∅ (∪)).
Qed.

(** X1: the constructor fetches the index on its own unless told not to.
    With [autoload] left out or truthy and a route that is not empty, the
    new instance is loading, one timer of delay 0 is pending and nothing is
    sent yet; once time moves, exactly one GET to the index route is sent,
    without callback and with the stored parameters (none, when none were
    given). With [autoload] falsy or an empty route the instance is idle and
    the passing of time sends nothing. *)
Theorem constructor_autoloads route init ps meta autoload w :
  ps ≠ VNull → timers w = [] →
  let c := fst (API.constructor route init ps meta autoload w) in
  if autoloads autoload route then
    _loading (this c) = true ∧
    timers c = [mkTimer (next_handle w) 0 (now w) (TIndex VUndefined)] ∧
    sent c = sent w ∧
    ∀ dt, 0 ≤ dt →
      ∃ rq, sent (tick dt c) = sent w ++ [rq] ∧
            req_verb rq = GET ∧ req_route rq = route +:+ ".index" ∧
            req_chain rq = KIndex VUndefined ∧ req_body rq = VUndefined ∧
            req_resolved rq = own_props (heap c) (_params (this c)) ∧
            (ps = VUndefined → req_resolved rq = ∅)
  else
    idle c ∧ sent c = sent w ∧ ∀ dt, sent (tick dt c) = sent w.
Proof.
  intros Hps Ht.
  destruct (API_constructor_eval route init ps meta autoload w)
    as (w0 & ps1 & meta1 & empty & S & _ & _ & Cps & _ & ->).
  remember (with_this _ w0) as u eqn:Hu.
  assert (_params (this u) = ps1) as Hp by (subst u; simpl; unfold seed; by repeat case_match).
  assert (_debouncing (this u) = None) as Hd by (subst u; simpl; unfold seed; by repeat case_match).
  assert (_loading (this u) = false ∧ _saving (this u) = false) as [Hl Hsv]
    by (subst u; simpl; unfold seed; by repeat case_match).
  assert (settings (this u) =
            (route, mkEndpoints ".index" ".destroy" ".show" ".store" ".update", 1000)) as Hset
    by (subst u; simpl; unfold seed; by repeat case_match).
  assert (timers u = []) as Htu by (subst u; simpl; by rewrite (st_timers _ _ S)).
  assert (sent u = sent w) as Hsu by (subst u; simpl; by rewrite (st_sent _ _ S)).
  cbv zeta. destruct (autoloads autoload route).
  - assert (nullish (_params (this u)) = false) as Hn.
    { rewrite Hp. destruct Cps as [[? ->]|(_ & l & -> & _)]; [|done]. by destruct ps. }
    erewrite bind_ok by (by apply get_eq).
    change (fst (ret () ?x)) with x.
    assert (cancel (_debouncing (this u)) (timers u) = []) as Hc by by rewrite Hd, Htu.
    assert (debounce_delay (this u) = 0) as Hdel by (unfold debounce_delay; by rewrite Hd).
    split; [done|]. split.
    { simpl. rewrite Hc. unfold scheduled. rewrite Hdel. simpl.
      subst u. simpl. by rewrite (st_next_handle _ _ S), (st_now _ _ S), Z.add_0_r. }
    split; [done|]. intros dt Hdt.
    rewrite fetch_fires by (done || lia).
    unfold settings in Hset. injection Hset as Hr He _.
    eexists. split; [simpl; by rewrite Hsu|].
    repeat split; try done.
    + simpl. by rewrite Hr, He.
    + intros ->. destruct Cps as [[? _]|(_ & l & -> & _ & Hl0)]; [done|].
      simpl req_resolved. rewrite Hp. apply heap_assign_empty. subst u. done.
  - change (fst (ret () ?x)) with x.
    split; [by repeat split|]. split; [done|].
    intros dt. rewrite tick_idle by (rewrite Htu; constructor). done.
Qed.

Lemma constructor_autoloads_witness :
  VUndefined ≠ VNull ∧ timers page = [] ∧
  _loading (this (fst (API.constructor "users" VUndefined VUndefined VUndefined
                         VUndefined page))) = true ∧
  sent (fst (API.constructor "users" VUndefined VUndefined VUndefined
               VUndefined page)) = sent page.
Proof.
  split; [discriminate|]. split; [reflexivity|].
  destruct (constructor_autoloads "users" VUndefined VUndefined VUndefined VUndefined page)
    as (H1 & _ & H3 & _); [discriminate|reflexivity|].
  split; [exact H1|exact H3].
Defined.

Lemma heap_after_autoload (b : bool) (u : world) l xs :
  heap u !! l = Some (Arr xs) →
  heap (fst ((if b then API.get VUndefined VUndefined ;; ret () else ret ()) u)) !! l
    = Some (Arr xs).
Proof.
  intros H. destruct b; [|done].
  destruct (nullish (_params (this u))) eqn:Hn.
  - unfold bind. by rewrite get_throws.
  - erewrite bind_ok by (by apply get_eq). simpl. by apply heap_assign_arr.
Qed.

Lemma this_after_autoload (b : bool) (u : world) :
  _data (this (fst ((if b then API.get VUndefined VUndefined ;; ret () else ret ()) u)))
    = _data (this u) ∧
  _meta (this (fst ((if b then API.get VUndefined VUndefined ;; ret () else ret ()) u)))
    = _meta (this u) ∧
  sent (fst ((if b then API.get VUndefined VUndefined ;; ret () else ret ()) u)) = sent u.
Proof.
  destruct b; [|done].
  destruct (nullish (_params (this u))) eqn:Hn.
  - unfold bind. by rewrite get_throws.
  - by erewrite bind_ok by (by apply get_eq).
Qed.

Lemma seed_fields h init a :
  truthy init = true →
  _data (seed h init a) =
    (if truthy (read_prop h "data" init) then read_prop h "data" init else _data a) ∧
  _meta (seed h init a) =
    (if truthy (read_prop h "meta" init) then read_prop h "meta" init else _meta a).
Proof. intros H. unfold seed. rewrite H. by repeat case_match. Qed.

(** X2: the constructor takes its first data and meta from [init], each
    only if truthy: the stored data is [init.data], or else a new empty
    array; the stored meta is [init.meta], or else the [meta] argument.
    Constructing sends nothing. *)
Theorem constructor_seeds route i props ps meta autoload w :
  heap w !! i = Some (Obj props) →
  let c := fst (API.constructor route (VRef i) ps meta autoload w) in
  let d := default VUndefined (props !! "data") in
  let m := default VUndefined (props !! "meta") in
  sent c = sent w ∧
  (if truthy d then _data (this c) = d
   else ∃ e, _data (this c) = VRef e ∧ heap w !! e = None ∧ heap c !! e = Some (Arr [])) ∧
  (if truthy m then _meta (this c) = m
   else meta ≠ VUndefined → _meta (this c) = meta).
Proof.
  intros Hi.
  destruct (API_constructor_eval route (VRef i) ps meta autoload w)
    as (w0 & ps1 & meta1 & empty & S & He & He0 & _ & Cm & ->).
  cbv zeta.
  assert (read_prop (heap w0) "data" (VRef i) = default VUndefined (props !! "data")) as Hd.
  { simpl. by rewrite (st_heap _ _ S _ _ Hi). }
  assert (read_prop (heap w0) "meta" (VRef i) = default VUndefined (props !! "meta")) as Hm.
  { simpl. by rewrite (st_heap _ _ S _ _ Hi). }
  remember (with_this _ w0) as u eqn:Hu.
  destruct (this_after_autoload (autoloads autoload route) u) as (-> & -> & ->).
  assert (sent u = sent w) as -> by (subst u; simpl; apply (st_sent _ _ S)).
  split; [done|].
  assert (heap u = heap w0) as Hh by by subst u.
  destruct (seed_fields (heap w0) (VRef i) (blank route ps1 meta1 (VRef empty)) eq_refl)
    as [Hsd Hsm].
  rewrite Hd in Hsd. rewrite Hm in Hsm.
  assert (this u = seed (heap w0) (VRef i) (blank route ps1 meta1 (VRef empty))) as ->
    by by subst u.
  rewrite Hsd, Hsm. split.
  - destruct (truthy (default VUndefined (props !! "data"))); [done|].
    exists empty. split; [done|]. split; [done|].
    apply heap_after_autoload. by rewrite Hh.
  - destruct (truthy (default VUndefined (props !! "meta"))); [done|].
    intros Hmeta. by destruct Cm as [[_ ->]|[? _]].
Qed.

Lemma constructor_seeds_witness :
  heap preloaded !! 2%positive = Some (Obj {[ "data" := VRef 1%positive ]}) ∧
  _data (this (fst (API.constructor "users" (VRef 2%positive) VUndefined VUndefined
                      (VBool false) preloaded))) = VRef 1%positive.
Proof.
  assert (heap preloaded !! 2%positive = Some (Obj {[ "data" := VRef 1%positive ]}))
    as Hi by by vm_compute.
  split; [exact Hi|].
  destruct (constructor_seeds "users" 2%positive {[ "data" := VRef 1%positive ]}
              VUndefined VUndefined (VBool false) preloaded Hi) as (_ & H & _).
  exact H.
Defined.

(** X3: once the stored parameters are [null] or [undefined] (after
    [params(null)], say), every request method throws a [TypeError] and
    sends nothing. By then [get] and [show] have raised the loading flag and
    cancelled the pending timer, [post] and [update] have raised the saving
    flag; [delete] leaves the instance as it was. *)
Theorem null_parameters w ps d id cb :
  nullish (_params (this w)) = true →
  let stuck := with_this (set_loading true (this w))
                 (with_timers (cancel (_debouncing (this w)) (timers w)) w) in
  API.get ps cb w = (stuck, Throw VTypeError) ∧
  API.show ps cb w = (stuck, Throw VTypeError) ∧
  (snd (API.post ps d cb w) = Throw VTypeError ∧
   _saving (this (fst (API.post ps d cb w))) = true ∧
   sent (fst (API.post ps d cb w)) = sent w) ∧
  (snd (API.update ps d cb w) = Throw VTypeError ∧
   _saving (this (fst (API.update ps d cb w))) = true ∧
   sent (fst (API.update ps d cb w)) = sent w) ∧
  (snd (API.delete id cb ps w) = Throw VTypeError ∧
   this (fst (API.delete id cb ps w)) = this w ∧
   sent (fst (API.delete id cb ps w)) = sent w).
Proof.
  intros H. cbv zeta. split; [by apply get_throws|]. split.
  { exec. simpl. by rewrite H. }
  split; [|split].
  - exec. destruct d; simpl; by rewrite H.
  - exec. destruct d; simpl; by rewrite H.
  - exec. simpl. by rewrite H.
Qed.

Lemma null_parameters_witness :
  nullish (_params (this unset)) = true ∧
  snd (API.get VUndefined VNull unset) = Throw VTypeError ∧
  snd (API.delete (VNum 1) VNull VUndefined unset) = Throw VTypeError.
Proof.
  split; [reflexivity|].
  destruct (null_parameters unset VUndefined VUndefined (VNum 1) VNull eq_refl)
    as (H1 & _ & _ & _ & H5 & _).
  split; [rewrite H1; reflexivity|exact H5].
Defined.

(** X4: only [post] handles a failed request. When a request of [get],
    [show], [update] or [delete] is rejected no handler runs: flags, data,
    console and bus stay as they are, and the rejection is left
    unhandled. *)
Theorem other_failures_are_silent i rq e w :
  sent w !! i = Some rq → i ∉ settled w →
  (∀ cb, req_chain rq ≠ KStore cb) →
  settle i (Rejected e) w =
    with_unhandled (unhandled w ++ [e]) (with_settled (i :: settled w) w).
Proof.
  intros Hi Hs Hk. rewrite (settle_eq _ _ _ _ Hi Hs).
  destruct (req_chain rq) eqn:E; try done. by destruct (Hk callback).
Qed.

Lemma other_failures_are_silent_witness :
  ∃ rq, sent fetched_once !! 0%nat = Some rq ∧ (0%nat ∉ settled fetched_once) ∧
        (∀ cb, req_chain rq ≠ KStore cb) ∧
        settle 0 (Rejected VNull) fetched_once =
          with_unhandled (unhandled fetched_once ++ [VNull])
            (with_settled (0%nat :: settled fetched_once) fetched_once).
Proof.
  eexists. split; [vm_compute; reflexivity|].
  assert (0%nat ∉ settled fetched_once) as Hs by (vm_compute; apply not_elem_of_nil).
  split; [exact Hs|]. split; [discriminate|].
  eapply (other_failures_are_silent 0 _ VNull fetched_once);
    [vm_compute; reflexivity|exact Hs|discriminate].
Defined.

(** ** Responses of [get], [show] and [post] *)

Lemma index_then_eval cb r u :
  nullish r = false → nullish (read_prop (heap u) "data" r) = false →
  API.index_then cb r u =
    API.notify cb r (with_this (received false (heap u) r (this u)) u).
Proof.
  intros Hr Hb.
  unfold API.index_then, get_prop, assign_this, bind, gets, modify.
  simpl. rewrite !Hr. simpl. rewrite !Hb. simpl. rewrite !Hb. reflexivity.
Qed.

Lemma show_then_eval cb r u :
  nullish r = false → nullish (read_prop (heap u) "data" r) = false →
  API.show_then cb r u =
    API.notify cb r (with_this (received true (heap u) r (this u)) u).
Proof.
  intros Hr Hb.
  unfold API.show_then, get_prop, assign_this, bind, gets, modify.
  simpl. rewrite !Hr. simpl. rewrite !Hb. simpl. rewrite !Hb. reflexivity.
Qed.

Lemma fetch_then_crash k r u :
  (∃ cb, k = KIndex cb ∨ k = KShow cb) →
  nullish r = true ∨ nullish (read_prop (heap u) "data" r) = true →
  settle_chain k (Fulfilled r) u = (u, Throw VTypeError).
Proof.
  intros (cb & [-> | ->]) Hbad; simpl;
    unfold API.index_then, API.show_then, get_prop, assign_this, bind, gets, modify, throw;
    destruct (nullish r) eqn:Hr; simpl; try done;
    destruct Hbad as [?|Hb]; try done; by rewrite Hb.
Qed.

(** X5: on a client whose stored parameters are a plain object, a [get] or
    [show] whose request succeeds with a body stores
    [body.data] as data and [body.meta] as meta, lowers the loading flag and
    then invokes the callback of the call, if any, with the response;
    [show] also keeps the body as raw data, [get] leaves the raw data
    alone. *)
Theorem fetch_success w p m ps cb c dt r :
  wf w → _params (this w) = VRef p → heap w !! p = Some (Obj m) →
  c = m_get ps cb ∨ c = m_show ps cb →
  debounce_delay (this w) ≤ dt → is_callback cb →
  let w1 := fst (invoke c w) in
  let w2 := tick dt w1 in
  let w3 := settle (length (sent w)) (Fulfilled r) w2 in
  let body := read_prop (heap w2) "data" r in
  nullish r = false → nullish body = false →
  _data (this w3) = read_prop (heap w2) "data" body ∧
  _meta (this w3) = read_prop (heap w2) "meta" body ∧
  _raw (this w3) = (match c with m_show _ _ => body | _ => _raw (this w) end) ∧
  _loading (this w3) = false ∧
  invoked w3 = invoked w ++ ((λ f, mkInvocation f r (this w3)) <$> callbacks cb).
Proof.
  intros Hwf Hp Hm Hc Hd Hcb.
  assert (nullish (_params (this w)) = false) as Hn by (by rewrite Hp).
  assert (cancel (_debouncing (this w)) (timers w) = []) as Hcancel
    by (apply cancel_wf; apply Hwf).
  assert (length (sent w) ∉ settled w) as Hfresh by by apply wf_unsettled.
  destruct Hc as [-> | ->]; simpl invoke;
    [rewrite get_eq by done|rewrite show_eq by done]; simpl fst; cbv zeta;
    rewrite fetch_fires by done;
    set (rq := mkRequest _ _ _ _ _ _);
    intros Hr Hb;
    (erewrite (settle_eq _ rq); [|simpl; by apply list_lookup_middle|done]);
    simpl settle_chain; unfold then_, job_run;
    [rewrite index_then_eval by done|rewrite show_then_eval by done];
    rewrite notify_callback by done; simpl; by repeat split.
Qed.

Lemma fetch_success_witness :
  wf listing ∧ _params (this listing) = VRef 1%positive ∧
  heap listing !! 1%positive = Some (Obj ∅) ∧
  (m_show VUndefined (VFun 1%positive) = m_get VUndefined (VFun 1%positive) ∨
   m_show VUndefined (VFun 1%positive) = m_show VUndefined (VFun 1%positive)) ∧
  debounce_delay (this listing) ≤ 0 ∧ is_callback (VFun 1%positive) ∧
  nullish (VRef 8%positive) = false ∧
  nullish (read_prop
             (heap (tick 0 (fst (invoke (m_show VUndefined (VFun 1%positive)) listing))))
             "data" (VRef 8%positive)) = false ∧
  _data (this (settle (length (sent listing)) (Fulfilled (VRef 8%positive))
                 (tick 0 (fst (invoke (m_show VUndefined (VFun 1%positive)) listing)))))
    = VRef 6%positive ∧
  _raw (this (settle (length (sent listing)) (Fulfilled (VRef 8%positive))
                (tick 0 (fst (invoke (m_show VUndefined (VFun 1%positive)) listing)))))
    = VRef 7%positive.
Proof.
  assert (wf listing) as Hwf by (split; vm_compute; constructor).
  assert (heap listing !! 1%positive = Some (Obj ∅)) as Hm by by vm_compute.
  assert (debounce_delay (this listing) ≤ 0) as Hd by (vm_compute; discriminate).
  assert (is_callback (VFun 1%positive)) as Hc by (right; by eexists).
  split; [exact Hwf|]. split; [reflexivity|]. split; [exact Hm|]. split; [by right|].
  split; [exact Hd|]. split; [exact Hc|]. split; [reflexivity|].
  split; [by vm_compute|].
  destruct (fetch_success listing 1%positive ∅ VUndefined (VFun 1%positive)
              (m_show VUndefined (VFun 1%positive)) 0 (VRef 8%positive)
              Hwf eq_refl Hm (or_intror eq_refl) Hd Hc eq_refl)
    as (H1 & _ & H3 & _); [by vm_compute|].
  split; [rewrite H1; by vm_compute|rewrite H3; by vm_compute].
Defined.

(** X6: when the response of a [get] or [show] is nullish or has no
    [data], the handler throws a [TypeError] before it stores anything: the
    loading flag stays as it is, data and callbacks are untouched, and the
    error is left unhandled. *)
Theorem fetch_without_body i rq r w :
  sent w !! i = Some rq → i ∉ settled w →
  (∃ cb, req_chain rq = KIndex cb ∨ req_chain rq = KShow cb) →
  nullish r = true ∨ nullish (read_prop (heap w) "data" r) = true →
  settle i (Fulfilled r) w =
    with_unhandled (unhandled w ++ [VTypeError]) (with_settled (i :: settled w) w).
Proof.
  intros Hi Hs Hk Hbad. rewrite (settle_eq _ _ _ _ Hi Hs).
  unfold job_run. rewrite fetch_then_crash; done.
Qed.

Lemma fetch_without_body_witness :
  ∃ rq, sent fetched_once !! 0%nat = Some rq ∧ (0%nat ∉ settled fetched_once) ∧
        (∃ cb, req_chain rq = KIndex cb ∨ req_chain rq = KShow cb) ∧
        (nullish VNull = true ∨
         nullish (read_prop (heap fetched_once) "data" VNull) = true) ∧
        unhandled (settle 0 (Fulfilled VNull) fetched_once) =
          unhandled fetched_once ++ [VTypeError].
Proof.
  eexists. split; [vm_compute; reflexivity|].
  assert (0%nat ∉ settled fetched_once) as Hs by (vm_compute; apply not_elem_of_nil).
  split; [exact Hs|]. split; [exists VNull; by left|]. split; [by left|].
  erewrite fetch_without_body;
    [reflexivity|vm_compute; reflexivity|exact Hs|exists VNull; by left|by left].
Defined.

Lemma update_then_eval cb r u :
  is_callback (_callback (this u)) → is_callback cb →
  API.update_then cb r u =
    (with_invoked
       (invoked u ++
          ((λ f, mkInvocation f r (set_saving false (this u))) <$>
             (callbacks (_callback (this u)) ++ callbacks cb)))
       (with_this (set_saving false (this u)) u), Ok ()).
Proof. apply store_then_eval. Qed.

Lemma inv_fn_fmap r a (l : list fn) :
  inv_fn <$> ((λ f, mkInvocation f r a) <$> l) = l.
Proof. induction l as [|x l IH]; [done|]. csimpl. by rewrite IH. Qed.



(** ** [update], [onSuccess] and the handler of [delete] *)

Lemma update_world_full ps d cb w :
  nullish (_params (this w)) = false →
  ∃ w0 body,
    API.update ps d cb w = (written PUT update_ (KUpdate cb) ps body w0, Ok Self) ∧
    stable w w0 ∧ this w0 = this w ∧ console w0 = console w ∧
    emitted w0 = emitted w ∧ invoked w0 = invoked w ∧ unhandled w0 = unhandled w ∧
    (d ≠ VUndefined ∧ body = d ∨
     d = VUndefined ∧ ∃ l, body = VRef l ∧ heap w !! l = None ∧ heap w0 !! l = Some (Obj ∅)).
Proof.
  intros Hn. destruct (decide (d = VUndefined)) as [->|Hd].
  - exists (fst (alloc (Obj ∅) w)), (VRef (fresh (dom (heap w)))).
    rewrite update_default by done. repeat split; try done; [apply quiet_alloc|].
    right. split; [done|]. eexists. split; [done|]. split.
    + apply not_elem_of_dom, is_fresh.
    + apply lookup_insert_eq.
  - exists w, d. rewrite update_eq by done. repeat split; try done. by left.
Qed.





Lemma filterM_id_throws id xs u :
  Exists (λ d, nullish d = true) xs →
  filterM (λ d, let! x := get_prop "id" d in ret (strict_ne x id)) xs u =
    (u, Throw VTypeError).
Proof.
  induction xs as [|d xs IH]; intros Hex; [by apply Exists_nil in Hex|].
  cbn [filterM]. destruct (nullish d) eqn:Hd.
  - unfold bind, get_prop. by rewrite Hd.
  - apply Exists_cons in Hex as [Hex|Hex]; [congruence|].
    erewrite bind_ok; [|unfold get_prop; rewrite Hd; reflexivity].
    unfold bind at 1. by rewrite IH.
Qed.

(** X10: when the stored data is nothing that can be filtered, or is an
    array with a nullish element, the success handler of [delete] throws a
    [TypeError]: data and callbacks are untouched and the error is left
    unhandled. *)
Theorem delete_without_records i rq id cb r w :
  sent w !! i = Some rq → i ∉ settled w → req_chain rq = KDestroy id cb →
  no_records (heap w) (_data (this w)) →
  settle i (Fulfilled r) w =
    with_unhandled (unhandled w ++ [VTypeError]) (with_settled (i :: settled w) w).
Proof.
  intros Hi Hs Hk Hdata. rewrite (settle_eq _ _ _ _ Hi Hs), Hk.
  simpl settle_chain. unfold then_, job_run.
  set (u := with_settled (i :: settled w) w).
  assert (API.destroy_then id cb r u = (u, Throw VTypeError)) as ->; [|done].
  unfold API.destroy_then. unfold bind at 1.
  rewrite (bind_ok _ _ _ _ _ (data_read u)). cbv beta iota.
  unfold bind at 1. unfold array_filter. unfold bind at 1, gets at 1.
  change (_data (this u)) with (_data (this w)). unfold no_records in Hdata.
  destruct (_data (this w)) as [| | | | |a| |]; try done.
  simpl. destruct (heap w !! a) as [[m|xs|e]|]; try done.
  unfold bind at 1. by rewrite filterM_id_throws.
Qed.

Lemma delete_without_records_witness :
  ∃ rq, sent mislaid !! 0%nat = Some rq ∧ (0%nat ∉ settled mislaid) ∧
        req_chain rq = KDestroy (VNum 1) VNull ∧
        no_records (heap mislaid) (_data (this mislaid)) ∧
        unhandled (settle 0 (Fulfilled VNull) mislaid) =
          unhandled mislaid ++ [VTypeError].
Proof.
  eexists. split; [vm_compute; reflexivity|].
  assert (0%nat ∉ settled mislaid) as Hs by (vm_compute; apply not_elem_of_nil).
  assert (no_records (heap mislaid) (_data (this mislaid))) as Hd by exact I.
  split; [exact Hs|]. split; [reflexivity|]. split; [exact Hd|].
  erewrite (delete_without_records 0 _ (VNum 1) VNull VNull mislaid);
    [reflexivity|vm_compute; reflexivity|exact Hs|reflexivity|exact Hd].
Defined.

(** ** [delete] *)

Lemma destroy_then_eval id cb r u a xs :
  _data (this u) = VRef a → heap u !! a = Some (Arr xs) →
  Forall (λ d, nullish d = false) xs →
  API.destroy_then id cb r u =
    API.notify cb r
      (with_this (set_data (VRef (fresh (dom (heap u)))) (this u))
         (with_heap (<[fresh (dom (heap u)) :=
                        Arr (filter (λ d, read_prop (heap u) "id" d ≠ id) xs)]> (heap u)) u)).
Proof.
  intros Hd Ha Hxs. unfold API.destroy_then.
  erewrite bind_ok; [reflexivity|].
  rewrite (bind_ok _ _ _ _ _ (data_read u)). cbv beta iota. rewrite Hd.
  erewrite bind_ok; cycle 1.
  { unfold array_filter.
    erewrite bind_ok; [|unfold gets; rewrite Ha; reflexivity].
    cbv beta iota.
    erewrite bind_ok by (by apply filterM_id_eval).
    erewrite bind_ok by reflexivity. reflexivity. }
  reflexivity.
Qed.

Lemma fresh_ne (h : gmap loc object) l o : h !! l = Some o → fresh (dom h) ≠ l.
Proof. intros H Heq. apply (is_fresh (dom h)). rewrite Heq. by apply elem_of_dom. Qed.

Lemma notify_frame cb r u :
  this (fst (API.notify cb r u)) = this u ∧ heap (fst (API.notify cb r u)) = heap u ∧
  sent (fst (API.notify cb r u)) = sent u.
Proof. unfold API.notify. destruct (truthy cb); [|done]. by destruct cb. Qed.

Lemma job_run_frame m u :
  this (job_run m u) = this (fst (m u)) ∧ heap (job_run m u) = heap (fst (m u)) ∧
  invoked (job_run m u) = invoked (fst (m u)).
Proof. unfold job_run. by destruct (m u) as [u' [|e]]. Qed.

(** X11: [delete] does not touch the array it filters (stored parameters a
    plain object, data an array of records). The call changes no
    field of the instance; when its request succeeds the array that was the
    stored data still has all its elements, the stored data is an array
    that did not exist before, and neither flag has moved. *)
Theorem delete_replaces_array w p m X cb ps r a xs :
  wf w → _params (this w) = VRef p → heap w !! p = Some (Obj m) →
  _data (this w) = VRef a → heap w !! a = Some (Arr xs) →
  Forall (λ d, nullish d = false) xs →
  let w1 := fst (API.delete X cb ps w) in
  let w2 := settle (length (sent w)) (Fulfilled r) w1 in
  this w1 = this w ∧
  heap w2 !! a = Some (Arr xs) ∧
  _data (this w2) ≠ VRef a ∧
  (∀ l, _data (this w2) = VRef l → heap w1 !! l = None) ∧
  _loading (this w2) = _loading (this w) ∧ _saving (this w2) = _saving (this w).
Proof.
  intros Hwf Hp Hm Hd Ha Hxs.
  assert (nullish (_params (this w)) = false) as Hn by (by rewrite Hp).
  rewrite delete_eq by done. simpl fst. intros w1 w2.
  assert (heap w1 !! a = Some (Arr xs)) as Ha1.
  { simpl. by do 2 apply heap_assign_arr. }
  split; [done|].
  subst w2.
  erewrite settle_eq;
    [|simpl; by apply list_lookup_middle|simpl; by apply wf_unsettled].
  cbn [req_chain settle_chain then_].
  set (u := with_settled _ w1).
  destruct (job_run_frame (API.destroy_then X cb r) u) as (-> & -> & _).
  rewrite (destroy_then_eval X cb r u a xs) by done.
  match goal with |- context [API.notify cb r ?v] =>
    destruct (notify_frame cb r v) as (-> & -> & _) end.
  simpl. split; [|split; [|split]].
  - rewrite lookup_insert_ne; [done|]. by apply (fresh_ne (heap w1) a (Arr xs)).
  - intros [= Heq]. by apply (fresh_ne (heap w1) a (Arr xs)).
  - intros l [= <-]. apply not_elem_of_dom, is_fresh.
  - done.
Qed.

Lemma delete_replaces_array_witness :
  wf listed ∧ _params (this listed) = VRef 1%positive ∧
  heap listed !! 1%positive = Some (Obj ∅) ∧
  _data (this listed) = VRef 6%positive ∧
  heap listed !! 6%positive = Some (Arr [VRef 4%positive; VRef 5%positive]) ∧
  Forall (λ d, nullish d = false) [VRef 4%positive; VRef 5%positive] ∧
  heap (settle (length (sent listed)) (Fulfilled VNull)
          (fst (API.delete (VNum 1) VNull VUndefined listed))) !! 6%positive
    = Some (Arr [VRef 4%positive; VRef 5%positive]) ∧
  _data (this (settle (length (sent listed)) (Fulfilled VNull)
                 (fst (API.delete (VNum 1) VNull VUndefined listed)))) ≠ VRef 6%positive.
Proof.
  assert (wf listed) as Hwf by (split; vm_compute; repeat constructor).
  assert (heap listed !! 1%positive = Some (Obj ∅)) as Hm by by vm_compute.
  assert (Forall (λ d, nullish d = false) [VRef 4%positive; VRef 5%positive]) as Hxs
    by repeat constructor.
  assert (heap listed !! 6%positive = Some (Arr [VRef 4%positive; VRef 5%positive]))
    as Ha by by vm_compute.
  split; [exact Hwf|]. split; [reflexivity|]. split; [exact Hm|]. split; [reflexivity|].
  split; [exact Ha|]. split; [exact Hxs|].
  destruct (delete_replaces_array listed 1%positive ∅ (VNum 1) VNull VUndefined VNull
              6%positive [VRef 4%positive; VRef 5%positive] Hwf eq_refl Hm eq_refl
              Ha Hxs)
    as (_ & H2 & H3 & _).
  split; [exact H2|exact H3].
Defined.

Lemma merged_id_wins (id : value) (n m : gmap string value) :
  ({[ "id" := id ]} ∪ (n ∪ m)) !! "id" = Some id ∧
  ∀ k, k ≠ "id"%string → ({[ "id" := id ]} ∪ (n ∪ m)) !! k = (n ∪ m) !! k.
Proof.
  split.
  - apply lookup_union_Some_l, lookup_singleton_eq.
  - intros k Hk. apply lookup_union_r. by apply lookup_singleton_ne.
Qed.

(** X12: [delete] sends at once, without debounce: one DELETE to the
    destroy route, without body, whose parameters have the given [id]
    whatever the given or stored parameters say of [id], and otherwise the
    given parameters over the stored ones. The instance and the timers are
    as before. *)
Theorem delete_request w p m id cb ps :
  _params (this w) = VRef p → heap w !! p = Some (Obj m) →
  let w1 := fst (API.delete id cb ps w) in
  this w1 = this w ∧ timers w1 = timers w ∧
  ∃ rq, sent w1 = sent w ++ [rq] ∧
        req_verb rq = DELETE ∧
        req_route rq = _route (this w) +:+ destroy (_endpoints (this w)) ∧
        req_body rq = VUndefined ∧
        req_resolved rq !! "id" = Some id ∧
        ∀ k, k ≠ "id"%string →
          req_resolved rq !! k = (own_props (heap w) ps ∪ m) !! k.
Proof.
  intros Hp Hm.
  assert (nullish (_params (this w)) = false) as Hn by by rewrite Hp.
  rewrite delete_eq by done. simpl fst. cbv zeta.
  split; [done|]. split; [done|]. eexists. split; [done|].
  cbn [req_verb req_route req_body req_resolved].
  repeat split; try done.
  - rewrite Hp. cbn [own_props].
    erewrite heap_assign_lookup by (by apply heap_assign_lookup).
    apply merged_id_wins.
  - intros k Hk. rewrite Hp. cbn [own_props].
    erewrite heap_assign_lookup by (by apply heap_assign_lookup).
    by apply merged_id_wins.
Qed.

Lemma delete_request_witness :
  _params (this client) = VRef 1%positive ∧
  heap client !! 1%positive = Some (Obj ∅) ∧
  ∃ rq, sent (fst (API.delete (VNum 5) VNull VUndefined client)) = sent client ++ [rq] ∧
        req_verb rq = DELETE ∧ req_resolved rq !! "id" = Some (VNum 5).
Proof.
  assert (heap client !! 1%positive = Some (Obj ∅)) as Hm by by vm_compute.
  split; [reflexivity|]. split; [exact Hm|].
  destruct (delete_request client 1%positive ∅ (VNum 5) VNull VUndefined eq_refl Hm)
    as (_ & _ & rq & H1 & H2 & _ & _ & H5 & _).
  exists rq. split; [exact H1|]. split; [exact H2|exact H5].
Defined.

(** ** [query], [goTo] and what holds of every run *)

Lemma own_props_live (h : gmap loc object) v o :
  (∀ l, v = VRef l → l ∈ dom h) →
  own_props (<[fresh (dom h) := o]> h) v = own_props h v.
Proof.
  intros Hlive. destruct v as [| | | | |l| |]; try done. simpl.
  rewrite lookup_insert_ne; [done|]. intros Heq.
  apply (is_fresh (dom h)). rewrite Heq. by apply Hlive.
Qed.

Lemma query_eq kw ps w :
  nullish (_params (this w)) = false →
  (∀ l, ps = VRef l → l ∈ dom (heap w)) →
  let keyword := match kw with VUndefined => VStr EmptyString | v => v end in
  let q := fresh (dom (heap w)) in
  API.query kw ps w =
    (fetched (TIndex VUndefined) (VRef q)
       (with_heap (<[q := Obj (own_props (heap w) ps ∪ {[ "query" := keyword ]})]> (heap w)) w),
     Ok (Value VUndefined)).
Proof.
  intros Hn Hlive. cbv zeta. unfold API.query.
  erewrite bind_ok by reflexivity.
  erewrite bind_ok; cycle 1.
  { unfold Object_assign. erewrite bind_ok by reflexivity.
    unfold assign_props, modify. simpl. rewrite lookup_insert_eq.
    rewrite own_props_live by done. rewrite insert_insert_eq. reflexivity. }
  erewrite bind_ok by (by apply get_eq). reflexivity.
Qed.

Lemma goTo_eq n w :
  nullish (_params (this w)) = false →
  let q := fresh (dom (heap w)) in
  API.goTo n w =
    (fetched (TIndex VUndefined) (VRef q)
       (with_heap (<[q := Obj {[ "page" := n ]}]> (heap w)) w),
     Ok (Value VUndefined)).
Proof.
  intros Hn. cbv zeta. unfold API.goTo.
  erewrite bind_ok by reflexivity.
  erewrite bind_ok by (by apply get_eq). reflexivity.
Qed.

(** X13: [query] is a [get] of [{query: keyword}] overridden by the given
    parameters: these, then the keyword (the empty string by default), are
    merged over the stored parameters; the instance is loading and an index
    fetch is scheduled, nothing is sent yet. It returns [undefined], not the
    instance. *)
Theorem query_merges w p m kw ps :
  _params (this w) = VRef p → heap w !! p = Some (Obj m) →
  (∀ l, ps = VRef l → l ∈ dom (heap w)) →
  let keyword := match kw with VUndefined => VStr EmptyString | v => v end in
  let w1 := fst (API.query kw ps w) in
  snd (API.query kw ps w) = Ok (Value VUndefined) ∧
  _params (this w1) = VRef p ∧
  heap w1 !! p = Some (Obj ((own_props (heap w) ps ∪ {[ "query" := keyword ]}) ∪ m)) ∧
  _loading (this w1) = true ∧
  timers w1 = cancel (_debouncing (this w)) (timers w) ++ [scheduled (TIndex VUndefined) w] ∧
  sent w1 = sent w.
Proof.
  intros Hp Hm Hlive. cbv zeta.
  assert (nullish (_params (this w)) = false) as Hn by by rewrite Hp.
  rewrite query_eq by done. cbn [fst snd].
  split; [done|]. split; [done|]. split; [|by repeat split].
  simpl. rewrite Hp. simpl. rewrite lookup_insert_eq.
  rewrite lookup_insert_ne by (by apply (fresh_ne _ _ (Obj m))).
  rewrite Hm. by rewrite lookup_insert_eq.
Qed.

Lemma query_merges_witness :
  _params (this client) = VRef 1%positive ∧
  heap client !! 1%positive = Some (Obj ∅) ∧
  (∀ l, VUndefined = VRef l → l ∈ dom (heap client)) ∧
  snd (API.query (VStr "ann") VUndefined client) = Ok (Value VUndefined) ∧
  heap (fst (API.query (VStr "ann") VUndefined client)) !! 1%positive =
    Some (Obj ((own_props (heap client) VUndefined ∪ {[ "query" := VStr "ann" ]}) ∪ ∅)).
Proof.
  assert (heap client !! 1%positive = Some (Obj ∅)) as Hm by by vm_compute.
  assert (∀ l, VUndefined = VRef l → l ∈ dom (heap client)) as Hl by discriminate.
  split; [reflexivity|]. split; [exact Hm|]. split; [exact Hl|].
  destruct (query_merges client 1%positive ∅ (VStr "ann") VUndefined eq_refl Hm Hl)
    as (H1 & _ & H3 & _).
  split; [exact H1|exact H3].
Defined.

(** X14: [goTo] is a [get] of [{page: pageNumber}]: the stored parameters
    get that [page] and keep the rest, the instance is loading and an index
    fetch is scheduled. It returns [undefined], not the instance. *)
Theorem goTo_sets_page w p m n :
  _params (this w) = VRef p → heap w !! p = Some (Obj m) →
  let w1 := fst (API.goTo n w) in
  snd (API.goTo n w) = Ok (Value VUndefined) ∧
  _params (this w1) = VRef p ∧
  heap w1 !! p = Some (Obj (<[ "page" := n ]> m)) ∧
  _loading (this w1) = true ∧
  timers w1 = cancel (_debouncing (this w)) (timers w) ++ [scheduled (TIndex VUndefined) w] ∧
  sent w1 = sent w.
Proof.
  intros Hp Hm. cbv zeta.
  assert (nullish (_params (this w)) = false) as Hn by by rewrite Hp.
  rewrite goTo_eq by done. cbn [fst snd].
  split; [done|]. split; [done|]. split; [|by repeat split].
  simpl. rewrite Hp. simpl. rewrite lookup_insert_eq.
  rewrite lookup_insert_ne by (by apply (fresh_ne _ _ (Obj m))).
  rewrite Hm, lookup_insert_eq. by rewrite insert_union_singleton_l.
Qed.

Lemma goTo_sets_page_witness :
  _params (this client) = VRef 1%positive ∧
  heap client !! 1%positive = Some (Obj ∅) ∧
  snd (API.goTo (VNum 2) client) = Ok (Value VUndefined) ∧
  heap (fst (API.goTo (VNum 2) client)) !! 1%positive =
    Some (Obj (<[ "page" := VNum 2 ]> ∅)).
Proof.
  assert (heap client !! 1%positive = Some (Obj ∅)) as Hm by by vm_compute.
  split; [reflexivity|]. split; [exact Hm|].
  destruct (goTo_sets_page client 1%positive ∅ (VNum 2) eq_refl Hm)
    as (H1 & _ & H3 & _).
  split; [exact H1|exact H3].
Defined.

Lemma step_keeps_object a w l o :
  heap w !! l = Some o → _params (this w) ≠ VRef l →
  heap (step a w) !! l = Some o.
Proof.
  intros Hl Hp.
  assert (∀ n, heap_assign (heap w) (_params (this w)) n !! l = Some o) as Ha
    by (intros; by rewrite heap_assign_other).
  assert (∀ (h : gmap loc object) x, h !! l = Some o → <[fresh (dom h) := x]> h !! l = Some o)
    as Hf by (intros; by apply lookup_fresh).
  destruct a as [c|x|dt|i out]; simpl.
  - destruct c; exec_all; simpl; repeat (case_match; simplify_eq/=);
      rewrite ?insert_insert_eq;
      repeat first [done | apply Ha | apply Hf | rewrite heap_assign_other by done].
  - by apply Hf.
  - by destruct (tick_frame dt w) as (-> & _).
  - by apply settle_frame.
Qed.

Lemma step_params a w :
  ¬ sets_params a → _params (this (step a w)) = _params (this w).
Proof.
  intros Ha. destruct a as [c|x|dt|i out]; simpl.
  - destruct c; try (destruct Ha; by eexists);
      exec_all; simpl; repeat (case_match; simplify_eq/=); done.
  - done.
  - by destruct (tick_frame dt w) as (_ & -> & _).
  - by apply settle_frame.
Qed.

(** X15: [data], [meta], [get], [show], [post], [update], [delete],
    [loading], [saving], [query], [goTo] and [onSuccess], the timers they
    set and the handlers of their responses write to no object but the one
    that holds the stored parameters: over any sequence of such calls, of
    time passing and of responses arriving, every other object of the heap
    (the parameter objects and bodies of the caller, the responses, the
    data arrays) is as it was. [params], [exclude] and [only] are left out,
    as they change which object holds the stored parameters; so is [save],
    which writes into the [id] it is given. *)
Theorem objects_are_kept acts w l o :
  Forall (λ a, ¬ sets_params a) acts →
  heap w !! l = Some o → _params (this w) ≠ VRef l →
  heap (run acts w) !! l = Some o.
Proof.
  revert w. induction acts as [|a acts IH]; intros w Hall Hl Hp; [done|].
  apply Forall_cons in Hall as [Ha Hall]. simpl. apply IH; [done| |].
  - by apply step_keeps_object.
  - by rewrite step_params.
Qed.

Lemma objects_are_kept_witness :
  Forall (λ a, ¬ sets_params a)
    [Call (m_get (VRef 4%positive) VNull); Tick 0;
     Settle 0 (Fulfilled (VRef 8%positive))] ∧
  heap listing !! 4%positive = Some (Obj {[ "id" := VNum 1 ]}) ∧
  _params (this listing) ≠ VRef 4%positive ∧
  heap (run [Call (m_get (VRef 4%positive) VNull); Tick 0;
             Settle 0 (Fulfilled (VRef 8%positive))] listing) !! 4%positive
    = Some (Obj {[ "id" := VNum 1 ]}).
Proof.
  assert (Forall (λ a, ¬ sets_params a)
            [Call (m_get (VRef 4%positive) VNull); Tick 0;
             Settle 0 (Fulfilled (VRef 8%positive))]) as Ha
    by (repeat constructor; intros [v Hv]; discriminate).
  assert (heap listing !! 4%positive = Some (Obj {[ "id" := VNum 1 ]})) as Hl
    by by vm_compute.
  assert (_params (this listing) ≠ VRef 4%positive) as Hp by discriminate.
  split; [exact Ha|]. split; [exact Hl|]. split; [exact Hp|].
  exact (objects_are_kept _ listing 4%positive _ Ha Hl Hp).
Defined.

Lemma fire_timers t w : (length (timers (fire t w)) ≤ length (timers w))%nat.
Proof.
  unfold fire. case_bool_decide; [|done].
  destruct (job t); simpl; apply length_filter.
Qed.

Lemma fires_timers ts : ∀ u,
  (length (timers (foldl (λ u t, fire t u) u ts)) ≤ length (timers u))%nat.
Proof.
  induction ts as [|t ts IH]; intros u; [done|]. simpl.
  etrans; [apply IH|apply fire_timers].
Qed.

Lemma tick_timers dt w : (length (timers (tick dt w)) ≤ length (timers w))%nat.
Proof. unfold tick. cbv zeta. etrans; [apply fires_timers|done]. Qed.

Lemma invoke_timers c w :
  wf w → (length (timers w) ≤ 1 → length (timers (fst (invoke c w))) ≤ 1)%nat.
Proof.
  intros [Hwf _] Hle.
  pose proof (cancel_wf _ _ Hwf) as Hc.
  destruct c; exec_all; simpl; repeat (case_match; simplify_eq/=);
    rewrite ?Hc; simpl; done || lia.
Qed.

Lemma step_timers a w :
  wf w → (length (timers w) ≤ 1 → length (timers (step a w)) ≤ 1)%nat.
Proof.
  intros Hwf Hle. destruct a as [c|x|dt|i out]; simpl.
  - by apply invoke_timers.
  - done.
  - etrans; [apply tick_timers|done].
  - by destruct (settle_frame i out w) as (_ & _ & _ & _ & _ & _ & _ & _ & -> & _).
Qed.

Lemma new_API_timers route init ps meta autoload :
  (length (timers (new_API route init ps meta autoload)) ≤ 1)%nat.
Proof.
  unfold new_API.
  destruct (API_constructor_eval route init ps meta autoload page)
    as (w0 & ps1 & meta1 & empty & Hst & _ & _ & _ & _ & ->).
  set (u := with_this _ w0).
  assert (timers u = []) as Hu by (simpl; by rewrite (st_timers _ _ Hst)).
  destruct (autoloads autoload route);
    [|change (length (timers u) ≤ 1)%nat; rewrite Hu; simpl; lia].
  assert (wf u) as Hwf.
  { apply wf_idle; [done|]. simpl. by rewrite (st_settled _ _ Hst). }
  pose proof (invoke_timers (m_get VUndefined VUndefined) u Hwf) as H.
  cbn [invoke] in H. unfold bind.
  destruct (API.get VUndefined VUndefined u) as [u' []];
    cbn [fst] in *; apply H; rewrite Hu; simpl; lia.
Qed.

(** X16: at any moment of the life of an instance at most one timer is
    pending. *)
Theorem one_timer route init ps meta autoload acts :
  (length (timers (run acts (new_API route init ps meta autoload))) ≤ 1)%nat.
Proof.
  pose proof (wf_new_API route init ps meta autoload) as Hwf.
  pose proof (new_API_timers route init ps meta autoload) as Hle.
  revert Hwf Hle. generalize (new_API route init ps meta autoload). intros w.
  revert w. induction acts as [|a acts IH]; intros w Hwf Hle; [done|].
  simpl. apply IH; [by apply wf_step|by apply step_timers].
Qed.

(** ** One timer for [get] and [show] *)

Lemma fetch_eq c ps cb w :
  nullish (_params (this w)) = false →
  c = m_get ps cb ∨ c = m_show ps cb →
  invoke c w =
    (fetched (match c with m_show _ _ => TShow cb | _ => TIndex cb end) ps w, Ok Self).
Proof. intros Hn [-> | ->]; simpl; [by rewrite get_eq|by rewrite show_eq]. Qed.

(** X17: [get] and [show] share one debounce timer (stored parameters a
    plain object). A [get] or [show]
    issued while the timer of an earlier [get] or [show] is pending replaces
    it: one request is sent, to the route of the later call, and when it
    succeeds only the callback of the later call is invoked; no timer is
    left to serve the earlier one. *)
Theorem superseded_fetch w p m c1 ps1 cb1 between c2 ps2 cb2 dt r :
  wf w → _params (this w) = VRef p → heap w !! p = Some (Obj m) →
  c1 = m_get ps1 cb1 ∨ c1 = m_show ps1 cb1 →
  c2 = m_get ps2 cb2 ∨ c2 = m_show ps2 cb2 →
  Forall no_call between → is_callback cb2 →
  let w1 := fst (invoke c1 w) in
  let w1' := run between w1 in
  let w2 := fst (invoke c2 w1') in
  let w3 := tick dt w2 in
  let w4 := settle (length (sent w)) (Fulfilled r) w3 in
  pending (next_handle w) w1' → _debounce (this w) ≤ dt →
  nullish r = false → nullish (read_prop (heap w3) "data" r) = false →
  (∃ rq, sent w3 = sent w ++ [rq] ∧
         req_route rq = _route (this w) +:+
           match c2 with
           | m_show _ _ => show_ (_endpoints (this w))
           | _ => index (_endpoints (this w))
           end ∧
         req_chain rq = match c2 with m_show _ _ => KShow cb2 | _ => KIndex cb2 end) ∧
  sent w4 = sent w3 ∧ timers w4 = [] ∧
  inv_fn <$> invoked w4 = (inv_fn <$> invoked w1') ++ callbacks cb2.
Proof.
  intros Hwf Hp0 Hm0 Hc1 Hc2 Hbetween Hcb.
  assert (nullish (_params (this w)) = false) as Hn by (by rewrite Hp0).
  rewrite (fetch_eq c1 ps1 cb1) by done. simpl fst.
  set (j1 := match c1 with m_show _ _ => TShow cb1 | _ => TIndex cb1 end).
  intros w1 w1' w2 w3 w4 Hpend Hdt Hr Hb.
  assert (timers w1 = [scheduled j1 w]) as Ht1.
  { simpl. rewrite cancel_wf by apply Hwf. done. }
  destruct (between_pending between w1 _ Hbetween Ht1 Hpend)
    as (Ht & Hs & Hd & Hp & Hg).
  fold w1' in Ht, Hs, Hd, Hp, Hg. simpl in Hs, Hd, Hp.
  unfold settings in Hg. simpl in Hg. injection Hg as Hroute Hends Hdeb.
  assert (nullish (_params (this w1')) = false) as Hn' by by rewrite Hp.
  assert (cancel (_debouncing (this w1')) (timers w1') = []) as Hcancel.
  { rewrite Hd, Ht. simpl.
    by rewrite filter_cons_False by (simpl; intros Hne; by apply Hne). }
  assert (debounce_delay (this w1') = _debounce (this w)) as Hdelay.
  { unfold debounce_delay. by rewrite Hd. }
  assert (wf w1') as Hwf'.
  { apply wf_run.
    replace w1 with (fst (invoke c1 w)) by (by rewrite (fetch_eq c1 ps1 cb1)).
    by apply wf_invoke. }
  assert (length (sent w) ∉ settled w1') as Hfresh.
  { rewrite <- Hs. by apply wf_unsettled. }
  set (j2 := match c2 with m_show _ _ => TShow cb2 | _ => TIndex cb2 end).
  assert (w2 = fetched j2 ps2 w1') as Hw2
    by (unfold w2; by rewrite (fetch_eq c2 ps2 cb2)).
  assert (w3 = tick dt (fetched j2 ps2 w1')) as Hw3 by (unfold w3; by rewrite Hw2).
  rewrite fetch_fires in Hw3 by (done || lia).
  revert Hw3. set (rq := mkRequest _ _ _ _ _ _). intros Hw3.
  split.
  { exists rq. rewrite Hw3. simpl. rewrite Hs, Hroute, Hends.
    split; [done|]. by destruct Hc2 as [-> | ->]. }
  assert (sent w3 !! length (sent w) = Some rq) as Hi.
  { rewrite Hw3. simpl. rewrite Hs. by apply list_lookup_middle. }
  assert (length (sent w) ∉ settled w3) as Hfresh3 by by rewrite Hw3.
  unfold w4. rewrite (settle_eq _ rq _ _ Hi Hfresh3).
  assert (timers w3 = []) as Ht3 by by rewrite Hw3.
  assert (invoked w3 = invoked w1') as Hi3 by by rewrite Hw3.
  assert (req_chain rq = match c2 with m_show _ _ => KShow cb2 | _ => KIndex cb2 end) as Hk
    by (by destruct Hc2 as [-> | ->]).
  clearbody w3 rq. unfold job_run. rewrite Hk.
  destruct Hc2 as [-> | ->]; simpl settle_chain; unfold then_;
    [rewrite index_then_eval by done|rewrite show_then_eval by done];
    rewrite notify_callback by done; simpl;
    rewrite fmap_app, inv_fn_fmap, Hi3; by repeat split.
Qed.

Lemma superseded_fetch_witness :
  wf listed ∧ _params (this listed) = VRef 1%positive ∧
  heap listed !! 1%positive = Some (Obj ∅) ∧
  (m_get VUndefined (VFun 1%positive) = m_get VUndefined (VFun 1%positive) ∨
   m_get VUndefined (VFun 1%positive) = m_show VUndefined (VFun 1%positive)) ∧
  (m_show VUndefined (VFun 2%positive) = m_get VUndefined (VFun 2%positive) ∨
   m_show VUndefined (VFun 2%positive) = m_show VUndefined (VFun 2%positive)) ∧
  Forall no_call [Tick 500] ∧ is_callback (VFun 2%positive) ∧
  pending (next_handle listed)
    (run [Tick 500] (fst (invoke (m_get VUndefined (VFun 1%positive)) listed))) ∧
  _debounce (this listed) ≤ 1000 ∧
  nullish (VRef 8%positive) = false ∧
  nullish (read_prop
             (heap (tick 1000
                      (fst (invoke (m_show VUndefined (VFun 2%positive))
                              (run [Tick 500]
                                 (fst (invoke (m_get VUndefined (VFun 1%positive))
                                         listed)))))))
             "data" (VRef 8%positive)) = false ∧
  inv_fn <$> invoked
    (settle (length (sent listed)) (Fulfilled (VRef 8%positive))
       (tick 1000
          (fst (invoke (m_show VUndefined (VFun 2%positive))
                  (run [Tick 500]
                     (fst (invoke (m_get VUndefined (VFun 1%positive)) listed)))))))
    = [2%positive].
Proof.
  assert (wf listed) as Hwf by (split; vm_compute; repeat constructor).
  assert (heap listed !! 1%positive = Some (Obj ∅)) as Hm by by vm_compute.
  assert (Forall no_call [Tick 500]) as Hb by (repeat constructor).
  assert (is_callback (VFun 2%positive)) as Hc by (right; by eexists).
  assert (pending (next_handle listed)
            (run [Tick 500] (fst (invoke (m_get VUndefined (VFun 1%positive)) listed))))
    as Hp by (vm_compute; apply list_elem_of_here).
  assert (_debounce (this listed) ≤ 1000) as Hd by (vm_compute; discriminate).
  split; [exact Hwf|]. split; [reflexivity|]. split; [exact Hm|]. split; [by left|].
  split; [by right|].
  split; [exact Hb|]. split; [exact Hc|]. split; [exact Hp|]. split; [exact Hd|].
  split; [reflexivity|]. split; [by vm_compute|].
  destruct (superseded_fetch listed 1%positive ∅ (m_get VUndefined (VFun 1%positive)) VUndefined
              (VFun 1%positive) [Tick 500] (m_show VUndefined (VFun 2%positive))
              VUndefined (VFun 2%positive) 1000 (VRef 8%positive)
              Hwf eq_refl Hm (or_introl eq_refl) (or_intror eq_refl) Hb Hc Hp Hd eq_refl)
    as (_ & _ & _ & H4); [by vm_compute|].
  rewrite H4. by vm_compute.
Defined.

(** ** [exclude], [only] and [save] *)

Lemma join_elements_eval (to_string : value → M string) sep xs texts u :
  Forall2 (λ x s, element_text x = Some s) xs texts →
  Rest.join_elements to_string sep xs u = (u, Ok (String.concat sep texts)).
Proof.
  induction 1 as [|x s xs texts Hx Hxs IH]; [done|].
  simpl. unfold Rest.element at 1. rewrite Hx.
  erewrite bind_ok by reflexivity.
  destruct Hxs as [|x' s' xs' texts' Hx' Hxs']; [done|].
  by erewrite bind_ok by exact IH.
Qed.

Lemma filter_by_eval (to_string : value → M string)
    (own_join : fn → value → string → M value) key ids texts w :
  texts_of (heap w) ids = Some texts →
  ∃ w0, stable w w0 ∧ this w0 = this w ∧
    Rest.filter_by to_string own_join key ids w =
      (with_this (set_params (VRef (fresh (dom (heap w0)))) (this w))
         (with_heap (<[fresh (dom (heap w0)) :=
                        Obj {[ key := VStr (String.concat "," texts) ]}]> (heap w0)) w0),
       Ok Self).
Proof.
  intros Ht. unfold Rest.filter_by.
  destruct ids as [| | | | |a| |]; try done; simpl in Ht.
  - injection Ht as <-. exists (fst (alloc (Arr []) w)).
    split; [apply (quiet_alloc (Arr []))|]. split; [done|].
    erewrite bind_ok by reflexivity.
    erewrite bind_ok; cycle 1.
    { unfold Rest.join. erewrite bind_ok by reflexivity.
      simpl. rewrite lookup_insert_eq. reflexivity. }
    reflexivity.
  - destruct (heap w !! a) as [[|xs|]|] eqn:Ha; try done.
    apply mapM_Some in Ht. exists w. split; [apply stable_refl|]. split; [done|].
    erewrite bind_ok by reflexivity.
    erewrite bind_ok; cycle 1.
    { unfold Rest.join. erewrite bind_ok by reflexivity.
      simpl. rewrite Ha. erewrite bind_ok by (by apply join_elements_eval).
      reflexivity. }
    reflexivity.
Qed.

Lemma filter_by_filtered (to_string : value → M string)
    (own_join : fn → value → string → M value) key ids texts w :
  texts_of (heap w) ids = Some texts →
  ∃ w1, Rest.filter_by to_string own_join key ids w = (w1, Ok Self) ∧
        filtered key texts w w1.
Proof.
  intros Ht. destruct (filter_by_eval to_string own_join key ids texts w Ht) as (w0 & Hst & Hthis & ->).
  eexists. split; [done|]. exists (fresh (dom (heap w0))).
  split.
  { destruct (heap w !! fresh (dom (heap w0))) as [x|] eqn:E; [|done].
    apply (st_heap _ _ Hst) in E. exfalso.
    apply (is_fresh (dom (heap w0))). by apply elem_of_dom. }
  split; [done|]. split; [apply lookup_insert_eq|]. split.
  { intros l x Hl. simpl. apply lookup_fresh. by apply (st_heap _ _ Hst). }
  simpl. split; [apply (st_timers _ _ Hst)|apply (st_sent _ _ Hst)].
Qed.

(** X18: [exclude] and [only] replace the stored parameters by a new object
    with the one key [exclude], respectively [only], whose value is the
    texts of the ids joined by commas (the empty string when there are
    none). Nothing of the former parameters is kept in it, no existing
    object is changed, nothing is scheduled or sent, and the instance is
    returned. *)
Theorem filters_replace_parameters (to_string : value → M string)
    (own_join : fn → value → string → M value) ids texts w :
  texts_of (heap w) ids = Some texts →
  (∃ w1, Rest.exclude to_string own_join ids w = (w1, Ok Self) ∧
         filtered "exclude" texts w w1) ∧
  (∃ w1, Rest.only to_string own_join ids w = (w1, Ok Self) ∧
         filtered "only" texts w w1).
Proof.
  intros Ht. split; by apply filter_by_filtered.
Qed.

Lemma filters_replace_parameters_witness :
  texts_of (heap chosen) (VRef 4%positive) = Some ["1"; "2"]%string ∧
  ∃ w1, Rest.exclude no_text no_own_join (VRef 4%positive) chosen = (w1, Ok Self) ∧
        filtered "exclude" ["1"; "2"]%string chosen w1.
Proof.
  assert (texts_of (heap chosen) (VRef 4%positive) = Some ["1"; "2"]%string) as Ht
    by by vm_compute.
  split; [exact Ht|].
  exact (proj1 (filters_replace_parameters no_text no_own_join (VRef 4%positive)
                  ["1"; "2"]%string chosen Ht)).
Defined.

(** X19: given [null], a string, a number or any other value without a
    [join], [exclude] and [only] throw a [TypeError] and change nothing. *)
Theorem filters_need_an_array (to_string : value → M string)
    (own_join : fn → value → string → M value) ids w :
  no_join (heap w) ids →
  Rest.exclude to_string own_join ids w = (w, Throw VTypeError) ∧
  Rest.only to_string own_join ids w = (w, Throw VTypeError).
Proof.
  intros Hno.
  enough (∀ key, Rest.filter_by to_string own_join key ids w = (w, Throw VTypeError))
    as H by (split; apply H).
  intros key. unfold Rest.filter_by, Rest.join, Rest.default_array, bind, gets, throw, ret.
  destruct ids as [| | | | |a| |]; try done. simpl in *.
  destruct (heap w !! a) as [[m|xs|e]|]; try done.
  destruct (m !! "join") as [[| | | | | |f|]|] eqn:E; try done. by destruct (Hno f).
Qed.

Lemma filters_need_an_array_witness :
  no_join (heap client) (VStr "1,2") ∧
  Rest.exclude no_text no_own_join (VStr "1,2") client = (client, Throw VTypeError).
Proof.
  split; [exact I|].
  exact (proj1 (filters_need_an_array no_text no_own_join (VStr "1,2") client I)).
Defined.

Lemma own_props_ext (h h' : gmap loc object) v :
  (∀ l, v = VRef l → h' !! l = h !! l) → own_props h' v = own_props h v.
Proof. intros H. destruct v; try done. simpl. by rewrite H. Qed.

(** X20: after [exclude] or [only], the request of the next [get] carries
    that filter and the parameters of the [get], and nothing else. *)
Theorem filter_reaches_request (to_string : value → M string)
    (own_join : fn → value → string → M value) key f ids texts ps cb dt w :
  wf w → texts_of (heap w) ids = Some texts →
  key = "exclude" ∧ f = Rest.exclude to_string own_join ∨
  key = "only" ∧ f = Rest.only to_string own_join →
  (∀ l, ps = VRef l → is_Some (heap w !! l)) →
  debounce_delay (this w) ≤ dt →
  let w1 := fst (f ids w) in
  let w2 := fst (API.get ps cb w1) in
  let w3 := tick dt w2 in
  ∃ rq, sent w3 = sent w ++ [rq] ∧
        req_verb rq = GET ∧
        req_route rq = _route (this w) +:+ index (_endpoints (this w)) ∧
        req_resolved rq =
          own_props (heap w) ps ∪ {[ key := VStr (String.concat "," texts) ]}.
Proof.
  intros Hwf Ht Hf Hlive Hdt.
  assert (f = Rest.filter_by to_string own_join key) as ->
    by (by destruct Hf as [[-> ->] | [-> ->]]).
  destruct (filter_by_eval to_string own_join key ids texts w Ht) as (w0 & Hst & Hthis & ->).
  cbn [fst]. set (o := fresh (dom (heap w0))). set (w1 := with_this _ _).
  cbv zeta.
  assert (cancel (_debouncing (this w1)) (timers w1) = []) as Hcancel.
  { simpl. rewrite (st_timers _ _ Hst). apply cancel_wf, Hwf. }
  assert (own_props (heap w1) ps = own_props (heap w) ps) as Hps.
  { apply own_props_ext. intros l Hl. destruct (Hlive l Hl) as [x Hx].
    rewrite Hx. simpl. apply lookup_fresh. by apply (st_heap _ _ Hst). }
  rewrite get_eq by done. cbn [fst].
  rewrite fetch_fires by done.
  eexists. split; [simpl; by rewrite (st_sent _ _ Hst)|].
  split; [done|]. split; [done|].
  simpl in Hps. simpl. by rewrite !lookup_insert_eq, Hps.
Qed.

Lemma filter_reaches_request_witness :
  wf chosen ∧
  texts_of (heap chosen) (VRef 4%positive) = Some ["1"; "2"]%string ∧
  (∀ l, VUndefined = VRef l → is_Some (heap chosen !! l)) ∧
  debounce_delay (this chosen) ≤ 0 ∧
  ∃ rq, sent (tick 0 (fst (API.get VUndefined VNull
                             (fst (Rest.only no_text no_own_join (VRef 4%positive)
                                     chosen)))))
          = sent chosen ++ [rq] ∧
        req_resolved rq =
          own_props (heap chosen) VUndefined ∪ {[ "only" := VStr "1,2" ]}.
Proof.
  assert (wf chosen) as Hwf by (split; vm_compute; constructor).
  assert (texts_of (heap chosen) (VRef 4%positive) = Some ["1"; "2"]%string) as Ht
    by by vm_compute.
  assert (∀ l, VUndefined = VRef l → is_Some (heap chosen !! l)) as Hl by discriminate.
  assert (debounce_delay (this chosen) ≤ 0) as Hd by (vm_compute; discriminate).
  split; [exact Hwf|]. split; [exact Ht|]. split; [exact Hl|]. split; [exact Hd|].
  destruct (filter_reaches_request no_text no_own_join "only"
              (Rest.only no_text no_own_join) (VRef 4%positive) ["1"; "2"]%string
              VUndefined VNull 0 chosen Hwf Ht (or_intror (conj eq_refl eq_refl)) Hl Hd)
    as (rq & H1 & _ & _ & H4).
  exists rq. split; [exact H1|exact H4].
Defined.

Lemma assigned_eval w id ps :
  plain_target (heap w) id →
  ∃ w0 target,
    Rest.assigned id ps w = (w0, Ok target) ∧
    this w0 = this w ∧ sent w0 = sent w ∧ timers w0 = timers w ∧
    own_props (heap w0) target = own_props (heap w) ps ∪ own_props (heap w) id ∧
    (∀ l x, id ≠ VRef l → heap w !! l = Some x → heap w0 !! l = Some x) ∧
    (∀ i mi, id = VRef i → heap w !! i = Some (Obj mi) →
       heap w0 !! i = Some (Obj (own_props (heap w) ps ∪ mi))).
Proof.
  intros Hid. unfold Rest.assigned.
  erewrite bind_ok by reflexivity.
  destruct id as [| |b|n| |i| |]; try done.
  - erewrite bind_ok by reflexivity. eexists _, _. split; [reflexivity|].
    simpl. rewrite lookup_insert_eq, (right_id ∅ (∪)).
    repeat split; try done. intros l x _ Hl. by apply lookup_fresh.
  - erewrite bind_ok by reflexivity. eexists _, _. split; [reflexivity|].
    simpl. rewrite lookup_insert_eq, (right_id ∅ (∪)).
    repeat split; try done. intros l x _ Hl. by apply lookup_fresh.
  - destruct Hid as [mi Hi].
    erewrite bind_ok by reflexivity. eexists _, _. split; [reflexivity|].
    simpl. rewrite Hi, lookup_insert_eq. repeat split; try done.
    + intros l x Hne Hl. rewrite lookup_insert_ne by congruence. done.
    + intros i' mi' [= <-] Hi'. rewrite lookup_insert_eq. congruence.
Qed.

(** X21: [save] sends one request and raises the saving flag. With [update]
    falsy it is a POST to the store route, and [id] plays no part; with
    [update] truthy it is a PUT to the update route whose parameters are the
    given ones over those of [id] over the stored ones, and the [id] object
    of the caller has itself received the given parameters. A number given
    for [id] adds nothing to the request. *)
Theorem save_request w p m data update id ps :
  _params (this w) = VRef p → heap w !! p = Some (Obj m) →
  data ≠ VUndefined → ps ≠ VUndefined →
  plain_target (heap w) id → id ≠ VRef p →
  let w1 := fst (Rest.save data update id ps w) in
  snd (Rest.save data update id ps w) = Ok Self ∧
  _saving (this w1) = true ∧ _params (this w1) = VRef p ∧
  (∃ rq, sent w1 = sent w ++ [rq] ∧
     req_verb rq = (if truthy update then PUT else POST) ∧
     req_route rq = _route (this w) +:+
       (if truthy update then update_ else store) (_endpoints (this w)) ∧
     req_body rq = data ∧
     req_chain rq = (if truthy update then KUpdate VUndefined else KStore VUndefined) ∧
     req_resolved rq =
       (if truthy update
        then (own_props (heap w) ps ∪ own_props (heap w) id) ∪ m
        else own_props (heap w) ps ∪ m)) ∧
  (∀ i mi, id = VRef i → heap w !! i = Some (Obj mi) →
     heap w1 !! i =
       Some (Obj (if truthy update then own_props (heap w) ps ∪ mi else mi))).
Proof.
  intros Hp Hm Hd Hps Hid Hne. cbv zeta.
  assert (nullish (_params (this w)) = false) as Hn by by rewrite Hp.
  unfold Rest.save.
  assert (id ≠ VUndefined) as Hu by (intros ->; by destruct Hid).
  rewrite (bind_ok _ _ w w data) by (by destruct data).
  rewrite (bind_ok _ _ w w id) by (by destruct id).
  rewrite (bind_ok _ _ w w ps) by (by destruct ps).
  destruct (truthy update).
  - destruct (assigned_eval w id ps Hid)
      as (w0 & target & Ha & Hthis & Hsent & Htimers & Hown & Hkeep & Hmut).
    erewrite bind_ok; cycle 1.
    { erewrite bind_ok by exact Ha. apply update_eq; [by rewrite Hthis|done]. }
    assert (heap w0 !! p = Some (Obj m)) as Hm0 by by apply Hkeep.
    cbn [fst snd ret]. split; [done|]. simpl. rewrite Hthis, Hp, Hsent.
    split; [done|]. split; [done|]. split.
    + eexists. split; [done|]. repeat split; try done. simpl.
      by rewrite Hm0, lookup_insert_eq, Hown.
    + intros i mi -> Hi. rewrite heap_assign_other by congruence.
      by eapply Hmut.
  - erewrite bind_ok by (by apply post_eq).
    cbn [fst snd ret]. split; [done|]. simpl. rewrite Hp.
    split; [done|]. split; [done|]. split.
    + eexists. split; [done|]. repeat split; try done. simpl.
      by rewrite Hm, lookup_insert_eq.
    + intros i mi -> Hi. by rewrite heap_assign_other by congruence.
Qed.

Lemma save_request_witness :
  _params (this paging) = VRef 1%positive ∧
  heap paging !! 1%positive = Some (Obj ∅) ∧
  VRef 5%positive ≠ VUndefined ∧
  plain_target (heap paging) (VRef 4%positive) ∧
  VRef 4%positive ≠ VRef 1%positive ∧
  snd (Rest.save (VRef 5%positive) (VBool true) (VRef 4%positive) (VRef 5%positive)
         paging) = Ok Self ∧
  ∃ rq, sent (fst (Rest.save (VRef 5%positive) (VBool true) (VRef 4%positive)
                     (VRef 5%positive) paging)) = sent paging ++ [rq] ∧
        req_verb rq = PUT.
Proof.
  assert (heap paging !! 1%positive = Some (Obj ∅)) as Hm by by vm_compute.
  assert (plain_target (heap paging) (VRef 4%positive)) as Hid
    by (eexists; vm_compute; reflexivity).
  split; [reflexivity|]. split; [exact Hm|]. split; [discriminate|].
  split; [exact Hid|]. split; [discriminate|].
  destruct (save_request paging 1%positive ∅ (VRef 5%positive) (VBool true)
              (VRef 4%positive) (VRef 5%positive) eq_refl Hm)
    as (H1 & _ & _ & (rq & H4 & H5 & _) & _);
    [discriminate|discriminate|exact Hid|discriminate|].
  split; [exact H1|]. exists rq. split; [exact H4|exact H5].
Defined.
